(** * PBassign: assignment of Protein Blocks from phi/psi dihedral angles

    A shallow embedding of [PBassign.py]: the reader of the block
    definitions ([read_pb_definitions]), the angle wrap
    ([angle_modulo_360]) and the assignment loop ([PB_assign]).

    Conventions of the embedding.
    - A Python float is an exact rational of [Q]; the constants [180.0]
      and [360.0] are the rationals 180 and 360.  Rounding, infinities
      and NaN are outside the model.
    - A Python exception is a value of [exn]; code that may raise lives
      in the error monad [result].
    - A [dict] whose iteration order matters is an association list
      in insertion order (section [ODict]); the torsion map, which the
      code only reads through [sorted] and by key, is a [gmap Z].
    - Text is a [string] of 8-bit characters. *)

From Stdlib Require Import Ascii String QArith Qpower Qabs Lqa.
From stdpp Require Import gmap strings list sorting pretty.

Open Scope Q_scope.

(** ** Exceptions *)

Inductive exn : Set := KeyError | IndexError | ValueError.

Inductive result (A : Type) : Type :=
  | Ok (a : A)
  | Raise (e : exn).
Arguments Ok {A} a.
Arguments Raise {A} e.

#[global] Instance result_ret : MRet result := fun A a => Ok a.
#[global] Instance result_bind : MBind result := fun A B f m =>
  match m with
  | Ok a => f a
  | Raise e => Raise e
  end.

(** A [for] loop whose body may raise: the first exception ends it. *)
Fixpoint for_each {A S} (body : S -> A -> result S) (s : S) (l : list A)
  : result S :=
  match l with
  | [] => Ok s
  | x :: l' => s' ← body s x; for_each body s' l'
  end.

(** A list comprehension [[f(x) for x in l]] whose [f] may raise. *)
Fixpoint comprehension {A B} (f : A -> result B) (l : list A)
  : result (list B) :=
  match l with
  | [] => Ok []
  | x :: l' => y ← f x; ys ← comprehension f l'; Ok (y :: ys)
  end.

(** ** Dictionaries in insertion order *)

Section ODict.
Context {K V : Type} (eqb : K -> K -> bool).

(** [d[k]]: the value stored under a key equal to [k], [KeyError]
    when there is none. *)
Fixpoint dict_get (k : K) (d : list (K * V)) : result V :=
  match d with
  | [] => Raise KeyError
  | (k', v) :: d' => if eqb k' k then Ok v else dict_get k d'
  end.

(** [d[k] = v]: a key already present keeps its place (and its key
    object) and takes the new value; a new key goes last. *)
Fixpoint dict_set (k : K) (v : V) (d : list (K * V)) : list (K * V) :=
  match d with
  | [] => [(k, v)]
  | (k', v') :: d' =>
      if eqb k' k then (k', v) :: d' else (k', v') :: dict_set k v d'
  end.

(** Iterating a dict yields its keys in insertion order. *)
Definition dict_keys (d : list (K * V)) : list K := d.*1.

End ODict.

(** ** The angle wrap *)

(** [angle_modulo_360], lines 65-73: one comparison with [180.0], one
    with [-180.0], at most one shift by a full turn. *)
Definition angle_modulo_360 (angle : Q) : Q :=
  if Qlt_le_dec 180 angle then angle - 360
  else if Qlt_le_dec angle (-180) then angle + 360
  else angle.

(** [numpy.vectorize(angle_modulo_360)], line 162: the scalar function
    applied to every element; numpy refuses an input of size 0 when no
    output type was declared. *)
Definition angle_modulo_360_vect (a : list Q) : result (list Q) :=
  match a with
  | [] => Raise ValueError
  | _ => Ok (angle_modulo_360 <$> a)
  end.

(** Congruence of two angles modulo a full turn. *)
Definition congruent_360 (x y : Q) : Prop :=
  exists k : Z, x == y + inject_Z k * 360.

(** ** numpy arrays of one dimension *)

(** [a - b] with numpy's broadcasting: equal lengths subtract
    element-wise, an operand of length 1 is stretched, any other pair
    of shapes raises [ValueError]. *)
Definition np_sub (a b : list Q) : result (list Q) :=
  if (length a =? length b)%nat then Ok (zip_with Qminus a b)
  else if (length a =? 1)%nat then Ok ((fun y => hd 0 a - y) <$> b)
  else if (length b =? 1)%nat then Ok ((fun x => x - hd 0 b) <$> a)
  else Raise ValueError.

(** [a ** 2]. *)
Definition np_square (a : list Q) : list Q := (fun x => x ^ 2) <$> a.

(** [numpy.sum(a)]. *)
Definition np_sum (a : list Q) : Q := foldr Qplus 0 a.

(** ** Text *)

(** [str.isspace] on the characters below 128: tab, line feed,
    vertical tab, form feed, carriage return, the four separators
    28-31 and the space. *)
Definition is_space (c : ascii) : bool :=
  let n := nat_of_ascii c in
  ((9 <=? n)%nat && (n <=? 13)%nat) || ((28 <=? n)%nat && (n <=? 32)%nat).

Definition newline : ascii := "010"%char.
Definition hash : ascii := "#"%char.

(** [s.split("\n")]: the pieces between line feeds; the empty string
    splits into one empty piece. *)
Fixpoint split_newline (s : string) : list string :=
  match s with
  | EmptyString => [EmptyString]
  | String c s' =>
      if Ascii.eqb c newline then EmptyString :: split_newline s'
      else match split_newline s' with
           | l :: ls => String c l :: ls
           | [] => [String c EmptyString]
           end
  end.

(** [s.split()]: the maximal runs of characters that are not white
    space. *)
Fixpoint split_space (s : string) : list string :=
  match s with
  | EmptyString => []
  | String c s' =>
      if is_space c then split_space s'
      else match s' with
           | EmptyString => [String c EmptyString]
           | String c' _ =>
               if is_space c' then String c EmptyString :: split_space s'
               else match split_space s' with
                    | w :: ws => String c w :: ws
                    | [] => [String c EmptyString]
                    end
           end
  end.

(** [c in s] for a one-character [c]. *)
Fixpoint contains (c : ascii) (s : string) : bool :=
  match s with
  | EmptyString => false
  | String c' s' => Ascii.eqb c' c || contains c s'
  end.

(** Truth value of a string: non-empty. *)
Definition truthy (s : string) : bool :=
  match s with
  | EmptyString => false
  | String _ _ => true
  end.

(** [items[i]] on a list. *)
Definition list_item {A} (items : list A) (i : nat) : result A :=
  match items !! i with
  | Some x => Ok x
  | None => Raise IndexError
  end.

(** ** Reading the block definitions *)

(** The line filter of line 57: [line and "#" not in line]. *)
Definition kept (line : string) : bool :=
  truthy line && negb (contains hash line).

Section ReadDefinitions.
(** [float(s)] is Python's builtin; the reader is verified for every
    parser of numbers, which raises [ValueError] on what it rejects. *)
Variable float : string -> result Q.

(** Body of the loop of lines 56-59.  The right-hand side of the
    assignment (the comprehension) is evaluated before the subscript
    [items[0]]. *)
Definition read_line (pb_angles : list (string * list Q)) (line : string)
  : result (list (string * list Q)) :=
  if kept line then
    let items := split_space line in
    array ← comprehension float (drop 1 items);
    label ← list_item items 0;
    Ok (dict_set String.eqb label array pb_angles)
  else Ok pb_angles.

(** [read_pb_definitions], lines 51-62.  The report of lines 60-61
    evaluates [len(pb_angles)] and [len(pb_angles["a"])]; its only
    effect on the result is the [KeyError] of the second. *)
Definition read_pb_definitions (pb_angles_string : string)
  : result (list (string * list Q)) :=
  pb_angles ← for_each read_line [] (split_newline pb_angles_string);
  _ ← dict_get String.eqb "a"%string pb_angles;
  Ok pb_angles.

End ReadDefinitions.

(** The labels the reader meets: the first item of every kept line
    that has one. *)
Definition line_labels (pb_angles_string : string) : list string :=
  omap (fun line => if kept line then head (split_space line) else None)
       (split_newline pb_angles_string).

(** The kept lines are well formed for [float]: each has a label and
    every further item is a number. *)
Definition well_formed_line (float : string -> result Q) (line : string)
  : Prop :=
  kept line = true ->
  split_space line <> [] /\
  Forall (fun item => exists x, float item = Ok x) (drop 1 (split_space line)).

(** ** A reader of plain decimal numbers

    The instance of [float] used on concrete texts: an optional sign,
    digits, an optional point and further digits.  Python's [float]
    agrees with it on such numerals. *)

Definition digit_of (c : ascii) : option Z :=
  let n := nat_of_ascii c in
  if (48 <=? n)%nat && (n <=? 57)%nat then Some (Z.of_nat n - 48)%Z else None.

Fixpoint decimal_digits (s : string) (num : Z) (den : positive) (frac : bool)
  : result Q :=
  match s with
  | EmptyString => Ok (Qred (num # den))
  | String c s' =>
      match digit_of c with
      | Some d =>
          decimal_digits s' (10 * num + d)%Z
            (if frac then (10 * den)%positive else den) frac
      | None =>
          if Ascii.eqb c "."%char && negb frac
          then decimal_digits s' num den true
          else Raise ValueError
      end
  end.

Fixpoint has_digit (s : string) : bool :=
  match s with
  | EmptyString => false
  | String c s' => bool_decide (is_Some (digit_of c)) || has_digit s'
  end.

Definition decimal_float (s : string) : result Q :=
  if has_digit s then
    match s with
    | String c s' =>
        if Ascii.eqb c "-"%char
        then q ← decimal_digits s' 0 1 false; Ok (- q)
        else if Ascii.eqb c "+"%char
        then decimal_digits s' 0 1 false
        else decimal_digits s 0 1 false
    | EmptyString => Raise ValueError
    end
  else Raise ValueError.

(** ** The torsion map *)

(** Modelled from the spec: the value type of the map returned by
    [get_phi_psi_angles] (module PDBlib, which is not among the
    sources): a record of the two torsions of a residue, each an angle
    in degrees or the null marker. *)
Record torsion : Type := Torsion { phi : option Q; psi : option Q }.

(** [dihedrals[res]]. *)
Definition dihedral_item (dihedrals : gmap Z torsion) (res : Z)
  : result torsion :=
  match dihedrals !! res with
  | Some t => Ok t
  | None => Raise KeyError
  end.

(** [sorted(dihedrals)]: the residue numbers in ascending order. *)
Definition sorted (dihedrals : gmap Z torsion) : list Z :=
  merge_sort Z.le (map_to_list dihedrals).*1.

(** ** Assignment *)

(** Lines 117-124: the eight look-ups, in the order of the source, each
    appended to [angles]. *)
Definition eight_angles (dihedrals : gmap Z torsion) (res : Z)
  : result (list (option Q)) :=
  let angles := [] in
  t ← dihedral_item dihedrals (res - 2); let angles := angles ++ [psi t] in
  t ← dihedral_item dihedrals (res - 1); let angles := angles ++ [phi t] in
  t ← dihedral_item dihedrals (res - 1); let angles := angles ++ [psi t] in
  t ← dihedral_item dihedrals res;       let angles := angles ++ [phi t] in
  t ← dihedral_item dihedrals res;       let angles := angles ++ [psi t] in
  t ← dihedral_item dihedrals (res + 1); let angles := angles ++ [phi t] in
  t ← dihedral_item dihedrals (res + 1); let angles := angles ++ [psi t] in
  t ← dihedral_item dihedrals (res + 2); let angles := angles ++ [phi t] in
  Ok angles.

(** [None in angles]. *)
Definition None_in (angles : list (option Q)) : bool :=
  existsb (fun a => match a with None => true | Some _ => false end) angles.

(** [numpy.array(angles)], reached only with a list that holds no
    [None]. *)
Definition numpy_array (angles : list (option Q)) : list Q := omap id angles.

(** Lines 114-139: the [try] block with its bare [except].  [None]
    stands for the two exits that append ["Z"] and [continue]; otherwise
    the window goes on as an array. *)
Definition window (dihedrals : gmap Z torsion) (res : Z) : option (list Q) :=
  match eight_angles dihedrals res with
  | Ok angles => if None_in angles then None else Some (numpy_array angles)
  | Raise _ => None
  end.

(** Lines 144-146: the score of one block against the window. *)
Definition rmsda (ref angles : list Q) : result Q :=
  diff ← np_sub ref angles;
  diff2 ← angle_modulo_360_vect diff;
  Ok (np_sum (np_square diff2)).

(** Lines 142-147: the dict from score to block, filled in the
    iteration order of [pb_ref].  Its keys are floats, compared by
    value. *)
Definition score_block (pb_ref : list (string * list Q)) (angles : list Q)
    (rmsda_lst : list (Q * string)) (block : string)
  : result (list (Q * string)) :=
  ref ← dict_get String.eqb block pb_ref;
  r ← rmsda ref angles;
  Ok (dict_set Qeq_bool r block rmsda_lst).

Definition score_blocks (pb_ref : list (string * list Q)) (angles : list Q)
  : result (list (Q * string)) :=
  for_each (score_block pb_ref angles) [] (dict_keys pb_ref).

(** [min(l)]: the first of the smallest elements; an empty argument
    raises [ValueError]. *)
Definition py_min (l : list Q) : result Q :=
  match l with
  | [] => Raise ValueError
  | x :: l' => Ok (foldl (fun m y => if Qlt_le_dec y m then y else m) x l')
  end.

(** Line 148: [rmsda_lst[min(rmsda_lst)]]. *)
Definition best_block (pb_ref : list (string * list Q)) (angles : list Q)
  : result string :=
  rmsda_lst ← score_blocks pb_ref angles;
  m ← py_min (dict_keys rmsda_lst);
  dict_get Qeq_bool m rmsda_lst.

(** Body of the loop of lines 113-148: what one residue appends to
    [pb_seq]. *)
Definition assign_residue (pb_ref : list (string * list Q))
    (dihedrals : gmap Z torsion) (pb_seq : string) (res : Z) : result string :=
  match window dihedrals res with
  | None => Ok (pb_seq +:+ "Z")
  | Some angles => block ← best_block pb_ref angles; Ok (pb_seq +:+ block)
  end.

(** [PB_assign], lines 101-157, on the torsion map of the structure.
    The value is the sequence [pb_seq] handed to the writers of lines
    151-155; the files themselves are not modelled. *)
Definition PB_assign (pb_ref : list (string * list Q))
    (dihedrals : gmap Z torsion) : result string :=
  for_each (assign_residue pb_ref dihedrals) ""%string (sorted dihedrals).

(** ** The specification's vocabulary *)

(** The score in the words of the specification: per component, the
    wrapped difference reference minus window, squared, all summed. *)
Fixpoint deviation (ref angles : list Q) : Q :=
  match ref, angles with
  | r :: ref', x :: angles' =>
      angle_modulo_360 (r - x) ^ 2 + deviation ref' angles'
  | _, _ => 0
  end.

(** The eight values a window needs: which residue, which torsion. *)
Definition required (i : Z) : list (Z * (torsion -> option Q)) :=
  [(i - 2, psi); (i - 1, phi); (i - 1, psi); (i, phi); (i, psi);
   (i + 1, phi); (i + 1, psi); (i + 2, phi)]%Z.

(** The window of residue [i] cannot be assembled: a neighbour among
    [i-2 .. i+2] is absent, or a required value of a present residue
    is null. *)
Definition unassembled (dihedrals : gmap Z torsion) (i : Z) : Prop :=
  (exists j, (i - 2 <= j <= i + 2)%Z /\ dihedrals !! j = None) \/
  (exists j f t, (j, f) ∈ required i /\ dihedrals !! j = Some t /\ f t = None).

(** The window of residue [i] is [w]: all eight values are there. *)
Definition assembled (dihedrals : gmap Z torsion) (i : Z) (w : list Q) : Prop :=
  Forall2 (fun jf x => exists t, dihedrals !! jf.1 = Some t /\ jf.2 t = Some x)
          (required i) w.

(** The [n]-th character of a sequence, as a string. *)
Definition label_at (n : nat) (pb_seq : string) : string :=
  String.substring n 1 pb_seq.

(** The labels of the residues, written one after the other. *)
Definition join_labels (labels : list string) : string :=
  foldr String.append ""%string labels.

(** The reference library of the data model: a dict (no label twice)
    that is not empty, with eight angles under every label and labels
    of one character. *)
Record library_ok (pb_ref : list (string * list Q)) : Prop := {
  lib_dict : NoDup (dict_keys pb_ref);
  lib_nonempty : pb_ref <> [];
  lib_arity : Forall (fun e => length e.2 = 8%nat) pb_ref;
  lib_labels : Forall (fun e => String.length e.1 = 1%nat) pb_ref
}.

(** ** Writing a definition text

    A text in the format the reader expects: one line per block, the
    label and the numerals separated by one space, lines separated by
    line feeds. *)

(** No white space and no comment mark. *)
Fixpoint plain (s : string) : bool :=
  match s with
  | EmptyString => true
  | String c s' => negb (is_space c) && negb (Ascii.eqb c hash) && plain s'
  end.

Definition token (s : string) : bool := truthy s && plain s.

Definition render_line (e : string * list string) : string :=
  String.concat " " (e.1 :: e.2).

Definition render (entries : list (string * list string)) : string :=
  String.concat (String newline EmptyString) (render_line <$> entries).

(** The dict the entries make, their values read as arrays. *)
Definition library_of (entries : list (string * list string))
    (arrays : list (list Q)) : list (string * list Q) :=
  foldl (fun d b => dict_set String.eqb b.1 b.2 d) []
        (zip (fst <$> entries) arrays).

(** ** The scenario of the specification *)

Definition library_ab : list (string * list Q) :=
  [("a"%string, [0; 0; 0; 0; 0; 0; 0; 0]);
   ("b"%string, [10; 10; 10; 10; 10; 10; 10; 10])].

Definition five_residues (phi1 psi5 : Q) : gmap Z torsion :=
  list_to_map
    [(1%Z, Torsion (Some phi1) (Some 0)); (2%Z, Torsion (Some 0) (Some 0));
     (3%Z, Torsion (Some 0) (Some 0)); (4%Z, Torsion (Some 0) (Some 0));
     (5%Z, Torsion (Some 0) (Some psi5))].

(** ** Vocabulary for the reader *)

(** The elements of a list in the order of their first occurrence. *)
Definition first_occurrences (l : list string) : list string :=
  foldl (fun acc k => if bool_decide (k ∈ acc) then acc else acc ++ [k]) [] l.

(** A string of white space only. *)
Fixpoint all_space (s : string) : bool :=
  match s with
  | EmptyString => true
  | String c s' => is_space c && all_space s'
  end.

(** ** Files

    The files the run writes, as a map from names to contents.
    [open(name, "a")], [write] and [close] append to the content of
    the file and create it when it is not there.  Failures of the file
    system itself are outside the model. *)

Definition append_text (name text : string) (files : gmap string string)
  : gmap string string :=
  <[name := default ""%string (files !! name) +:+ text]> files.

(** [write_flat], lines 93-98. *)
Definition write_flat (name seq : string) (files : gmap string string)
  : gmap string string :=
  append_text name (seq +:+ String newline EmptyString) files.

(** ["%6d" % res]: the decimal numeral of an integer, with blanks in
    front up to a width of six. *)
Fixpoint blanks (n : nat) : string :=
  match n with
  | O => EmptyString
  | S n' => String " " (blanks n')
  end.

Definition format_6d (res : Z) : string :=
  let digits := pretty res in
  blanks (6 - String.length digits) +:+ digits.

Section WritePhipsi.
(** ["%8.2f" % x] is Python's formatting of a float; the dump is
    modelled for every such formatter. *)
Variable format_8_2f : Q -> string.

(** Lines 81-88: the formatted angle, or the text of the [except]
    clause when the residue is not there or the angle is [None]. *)
Definition angle_str (torsions : gmap Z torsion) (res : Z)
    (field : torsion -> option Q) : string :=
  match torsions !! res with
  | Some t =>
      match field t with
      | Some x => format_8_2f x
      | None => "    None"
      end
  | None => "    None"
  end.

(** Line 89: ["%s %6d %s %s \n" % (com, res, phi_str, psi_str)]. *)
Definition phipsi_line (torsions : gmap Z torsion) (com : string) (res : Z)
  : string :=
  com +:+ " " +:+ format_6d res +:+ " " +:+ angle_str torsions res phi +:+ " "
      +:+ angle_str torsions res psi +:+ " " +:+ String newline EmptyString.

(** [write_phipsi], lines 76-90 (its argument [torsion] is
    [torsions] here): one [write] per residue, in ascending order. *)
Definition write_phipsi (name : string) (torsions : gmap Z torsion)
    (com : string) (files : gmap string string) : gmap string string :=
  foldl (fun files res => append_text name (phipsi_line torsions com res) files)
        files (sorted torsions).

End WritePhipsi.

(** ** The options and the checks of the script *)

Module options.
(** The result of [parser.parse_args()], lines 171-196: [-p] collects
    its values in a list and is [None] when absent; [-o], [-x] and [-g]
    store a string. *)
Record t : Type := Make {
  p : option (list string);
  o : string;
  x : option string;
  g : option string;
  phipsi : bool;
  flat : bool
}.
End options.

(** [not v] for a value that is [None], a string or a list. *)
Definition not_list (v : option (list string)) : bool :=
  match v with
  | None | Some [] => true
  | Some (_ :: _) => false
  end.

Definition not_str (v : option string) : bool :=
  match v with
  | None | Some EmptyString => true
  | Some (String _ _) => false
  end.

(** The ways the script ends before any structure is read:
    [parser.error] and [sys.exit], each with its message. *)
Inductive stop : Type :=
  | ParserError (msg : string)
  | SysExit (msg : string)
  | TypeError.

(** Lines 199-205. *)
Definition check_options (opts : options.t) : option stop :=
  if not_list (options.p opts) then
    if not_str (options.x opts)
    then Some (ParserError "use at least option -p or -x")
    else if not_str (options.g opts)
    then Some (ParserError "option -g is mandatory, with use of option -x")
    else None
  else None.

(** Lines 243, 250 and 257: the names of the three output files. *)
Definition fasta_name (opts : options.t) : string := options.o opts +:+ ".PB.fasta".
Definition phipsi_name (opts : options.t) : string := options.o opts +:+ ".PB.phipsi".
Definition flat_name (opts : options.t) : string := options.o opts +:+ ".PB.flat".

Section CheckFiles.
(** [os.path.isfile], [os.path.isdir] and what [glob.glob] finds in a
    directory for an extension, as the file system answers them; the
    list of extensions [PDB.PDB_EXTENSIONS + PDB.PDBx_EXTENSIONS]
    belongs to PDBlib. *)
Variables isfile isdir : string -> bool.
Variable glob_in : string -> string -> list string.
Variable extensions : list string.

(** Body of the loop of lines 213-223, on the list of names and the
    lines printed so far. *)
Definition check_name (st : list string * list string) (name : string)
  : list string * list string :=
  let '(pdb_name_lst, printed) := st in
  if isfile name then (pdb_name_lst ++ [name], printed)
  else if isdir name then
    (foldl (fun lst extension => lst ++ glob_in name extension)
           pdb_name_lst extensions, printed)
  else if negb (isfile name) || negb (isdir name) then
    (pdb_name_lst, printed ++ [name +:+ ": not a valid file or directory"])
  else (pdb_name_lst, printed).

(** Lines 211-233: the structures to read, with the lines printed, or
    the end of the script.  Without [-p] the two names of the
    trajectory are tested; [os.path.isfile(None)] is a [TypeError]
    (a case that [check_options] has excluded before). *)
Definition check_files (opts : options.t)
  : (list string * list string) + stop :=
  if negb (not_list (options.p opts)) then
    let '(pdb_name_lst, printed) :=
      foldl check_name ([], []) (default [] (options.p opts)) in
    match pdb_name_lst with
    | _ :: _ =>
        inl (pdb_name_lst,
             printed ++ [pretty (length pdb_name_lst) +:+ " PDB file(s) to process"])
    | [] => inr (SysExit "Nothing to do. Bye.")
    end
  else
    match options.x opts with
    | None => inr TypeError
    | Some x =>
        if negb (isfile x) then inr (SysExit (x +:+ ": not a valid file"))
        else match options.g opts with
             | None => inr TypeError
             | Some g =>
                 if negb (isfile g)
                 then inr (SysExit (g +:+ ": not a valid file"))
                 else inl ([], [])
             end
    end.

(** Lines 199-233 in sequence: the check of the options, then the
    check of the files. *)
Definition startup (opts : options.t) : (list string * list string) + stop :=
  match check_options opts with
  | Some s => inr s
  | None => check_files opts
  end.

End CheckFiles.

(** ** The assignment with its files *)

Section Assign.
Variable format_8_2f : Q -> string.
(** [PB.write_fasta] belongs to PBlib; it is a parameter of the run. *)
Variable write_fasta :
  string -> string -> string -> gmap string string -> gmap string string.
Variable opts : options.t.

(** [PB_assign], lines 101-157, with the files: the dump of the
    torsions comes first, then the loop over the residues, then the
    two writers of the sequence.  An exception of the loop leaves the
    files as they are at that moment. *)
Definition PB_assign_files (pb_ref : list (string * list Q))
    (dihedrals : gmap Z torsion) (comment : string)
    (files : gmap string string) : gmap string string * result unit :=
  let files :=
    if options.phipsi opts
    then write_phipsi format_8_2f (phipsi_name opts) dihedrals comment files
    else files in
  match PB_assign pb_ref dihedrals with
  | Raise e => (files, Raise e)
  | Ok pb_seq =>
      let files := write_fasta (fasta_name opts) pb_seq comment files in
      let files :=
        if options.flat opts then write_flat (flat_name opts) pb_seq files
        else files in
      (files, Ok tt)
  end.

(** The chains of the structures, each with its comment, assigned one
    after the other as in lines 266-277 and 297-311; the first
    exception ends the run. *)
Fixpoint assign_all (pb_ref : list (string * list Q))
    (chains : list (string * gmap Z torsion)) (files : gmap string string)
  : gmap string string * result unit :=
  match chains with
  | [] => (files, Ok tt)
  | (comment, dihedrals) :: rest =>
      match PB_assign_files pb_ref dihedrals comment files with
      | (files', Ok _) => assign_all pb_ref rest files'
      | (files', Raise e) => (files', Raise e)
      end
  end.

End Assign.

(** ** Properties of the angle wrap *)

Section AngleWrap.

Lemma angle_modulo_360_cases angle :
  (180 < angle /\ angle_modulo_360 angle = angle - 360) \/
  (angle < -180 /\ angle_modulo_360 angle = angle + 360) \/
  (-180 <= angle <= 180 /\ angle_modulo_360 angle = angle).
Proof.
  unfold angle_modulo_360.
  destruct (Qlt_le_dec 180 angle) as [Hhi|Hhi]; [by left|].
  destruct (Qlt_le_dec angle (-180)) as [Hlo|Hlo]; [by right; left|].
  right; right. done.
Qed.

Lemma angle_modulo_360_in_range angle :
  -180 <= angle <= 180 -> angle_modulo_360 angle = angle.
Proof.
  intros [Hlo Hhi].
  destruct (angle_modulo_360_cases angle) as [[H _]|[[H _]|[_ H]]];
    [lra | lra | exact H].
Qed.

Lemma angle_modulo_360_congruent angle :
  congruent_360 (angle_modulo_360 angle) angle.
Proof.
  destruct (angle_modulo_360_cases angle) as [[_ ->]|[[_ ->]|[_ ->]]].
  - exists (-1)%Z. unfold inject_Z. lra.
  - exists 1%Z. unfold inject_Z. lra.
  - exists 0%Z. unfold inject_Z. lra.
Qed.

(** The result is within half a turn of zero exactly for the inputs
    within a turn and a half. *)
Lemma angle_modulo_360_bounds angle :
  -540 <= angle <= 540 <-> -180 <= angle_modulo_360 angle <= 180.
Proof.
  destruct (angle_modulo_360_cases angle) as [[H ->]|[[H ->]|[H ->]]];
    split; intros; lra.
Qed.

(** C2, as stated, fails: 541 is shifted once, to 181, which is outside
    the half-open interval from -180 to 180; and -180 is kept, which is
    outside it too. *)
Lemma angle_modulo_360_range_fails :
  angle_modulo_360 541 == 181 /\
  ~ (-180 < angle_modulo_360 541 /\ angle_modulo_360 541 <= 180) /\
  angle_modulo_360 (-180) = -180 /\
  ~ (-180 < angle_modulo_360 (-180) /\ angle_modulo_360 (-180) <= 180).
Proof.
  split; [reflexivity|]. split.
  - intros [_ H]. vm_compute in H. by apply H.
  - split; [reflexivity|]. intros [H _]. vm_compute in H. discriminate H.
Qed.

(** C2, amended: for every angle between -540 and 540 the wrapped angle
    lies in the closed interval from -180 to 180 and is congruent to the
    angle modulo 360; an angle is returned unchanged exactly when it
    lies in that closed interval already. *)
Theorem angle_modulo_360_range angle :
  -540 <= angle <= 540 ->
  -180 <= angle_modulo_360 angle <= 180 /\
  congruent_360 (angle_modulo_360 angle) angle /\
  (angle_modulo_360 angle == angle <-> -180 <= angle <= 180).
Proof.
  intros H. split; [by apply angle_modulo_360_bounds|].
  split; [apply angle_modulo_360_congruent|].
  destruct (angle_modulo_360_cases angle) as [[H' ->]|[[H' ->]|[H' ->]]];
    split; intros; lra.
Qed.

Lemma angle_modulo_360_range_witness :
  -180 <= angle_modulo_360 270 <= 180 /\
  congruent_360 (angle_modulo_360 270) 270 /\
  (angle_modulo_360 270 == 270 <-> -180 <= 270 <= 180).
Proof. apply (angle_modulo_360_range 270). lra. Defined.

(** C4, as stated, fails: 1000 wraps to 640, and 640 wraps to 280. *)
Lemma angle_modulo_360_not_idempotent :
  ~ angle_modulo_360 (angle_modulo_360 1000) == angle_modulo_360 1000.
Proof. vm_compute. intros H; discriminate H. Qed.

(** C4, amended: the wrap is idempotent on every angle between -540 and
    540, the angles it brings into the interval from -180 to 180. *)
Theorem angle_modulo_360_idempotent x :
  -540 <= x <= 540 ->
  angle_modulo_360 (angle_modulo_360 x) = angle_modulo_360 x.
Proof.
  intros H. apply angle_modulo_360_in_range. by apply angle_modulo_360_bounds.
Qed.

Lemma angle_modulo_360_idempotent_witness :
  angle_modulo_360 (angle_modulo_360 (-400)) = angle_modulo_360 (-400).
Proof. apply (angle_modulo_360_idempotent (-400)). lra. Defined.

End AngleWrap.

(** ** Dictionaries: reading after writing *)

Section ODictFacts.
Context {K V : Type} (eqb : K -> K -> bool).
Hypothesis eqb_refl : forall k, eqb k k = true.
Hypothesis eqb_sym : forall k k', eqb k k' = true -> eqb k' k = true.
Hypothesis eqb_trans :
  forall a b c, eqb a b = true -> eqb b c = true -> eqb a c = true.

Lemma dict_get_set (k k' : K) (v : V) d :
  dict_get eqb k (dict_set eqb k' v d) =
  if eqb k' k then Ok v else dict_get eqb k d.
Proof using eqb_sym eqb_trans.
  induction d as [|[k0 v0] d IH]; simpl; [done|].
  destruct (eqb k0 k') eqn:E0; simpl.
  - destruct (eqb k0 k) eqn:E1.
    + by rewrite (eqb_trans k' k0 k) by auto.
    + destruct (eqb k' k) eqn:E2; [|done].
      by rewrite (eqb_trans k0 k' k) in E1.
  - destruct (eqb k0 k) eqn:E1; [|exact IH].
    destruct (eqb k' k) eqn:E2; [|done].
    by rewrite (eqb_trans k0 k k') in E0 by auto.
Qed.

Lemma dict_keys_set (k0 k : K) (v : V) d :
  k0 ∈ dict_keys (dict_set eqb k v d) -> k0 ∈ dict_keys d \/ k0 = k.
Proof.
  unfold dict_keys. induction d as [|[k1 v1] d IH]; simpl.
  - intros ->%list_elem_of_singleton. by right.
  - destruct (eqb k1 k); simpl; rewrite !elem_of_cons; [tauto|].
    intros [->|H]; [by left; left|]. destruct (IH H); tauto.
Qed.

Lemma dict_set_keeps (k0 k : K) (v : V) d :
  k0 ∈ dict_keys d -> k0 ∈ dict_keys (dict_set eqb k v d).
Proof.
  unfold dict_keys. induction d as [|[k1 v1] d IH]; simpl.
  - by intros ?%elem_of_nil.
  - destruct (eqb k1 k); simpl; rewrite !elem_of_cons; [tauto|].
    intros [->|H]; [by left|]. right. by apply IH.
Qed.

Lemma dict_get_Ok (k : K) (d : list (K * V)) v :
  dict_get eqb k d = Ok v -> exists k', (k', v) ∈ d /\ eqb k' k = true.
Proof.
  induction d as [|[k1 v1] d IH]; simpl; [done|].
  destruct (eqb k1 k) eqn:E.
  - intros [= ->]. exists k1. split; [by left|done].
  - intros (k' & Hin & Hk)%IH. exists k'. split; [by right|done].
Qed.

Lemma dict_get_key (k : K) (d : list (K * V)) :
  k ∈ dict_keys d -> exists v, dict_get eqb k d = Ok v.
Proof using eqb_refl.
  unfold dict_keys. induction d as [|[k1 v1] d IH]; simpl.
  - by intros ?%elem_of_nil.
  - rewrite elem_of_cons. destruct (eqb k1 k) eqn:E; [by eexists|].
    intros [->|H]; [by rewrite eqb_refl in E|]. by apply IH.
Qed.

(** Filling a dict from a list of bindings: a key reads the last
    binding made under an equal key. *)
Lemma dict_get_fill (k : K) (bindings : list (K * V)) : forall d v,
  dict_get eqb k (foldl (fun d b => dict_set eqb b.1 b.2 d) d bindings) = Ok v ->
  (exists l1 k' l2, bindings = l1 ++ (k', v) :: l2 /\ eqb k' k = true /\
     Forall (fun b => eqb b.1 k = false) l2) \/
  (dict_get eqb k d = Ok v /\ Forall (fun b => eqb b.1 k = false) bindings).
Proof using eqb_sym eqb_trans.
  induction bindings as [|[k1 v1] bs IH]; intros d v; simpl.
  - intros H. right. by split.
  - intros [(l1 & k' & l2 & -> & Hk & Hl2)|[Hget Hbs]]%IH.
    + left. by exists ((k1, v1) :: l1), k', l2.
    + rewrite dict_get_set in Hget. destruct (eqb k1 k) eqn:E.
      * injection Hget as ->. left. by exists [], k1, bs.
      * right. split; [done|]. by constructor.
Qed.

Lemma dict_keys_fill (k : K) (bindings : list (K * V)) : forall d,
  k ∈ dict_keys (foldl (fun d b => dict_set eqb b.1 b.2 d) d bindings) ->
  k ∈ dict_keys d \/ k ∈ bindings.*1.
Proof.
  induction bindings as [|[k1 v1] bs IH]; intros d; simpl; [by left|].
  intros [[H| ->]%dict_keys_set|H]%IH.
  - by left.
  - right. by left.
  - right. by right.
Qed.

Lemma dict_fill_covers (k : K) (bindings : list (K * V)) : forall d,
  k ∈ bindings.*1 \/ (exists k', k' ∈ dict_keys d /\ eqb k' k = true) ->
  exists k', k' ∈ dict_keys (foldl (fun d b => dict_set eqb b.1 b.2 d) d bindings)
             /\ eqb k' k = true.
Proof using eqb_refl eqb_sym eqb_trans.
  induction bindings as [|[k1 v1] bs IH]; intros d; simpl.
  - intros [?%elem_of_nil|H]; done.
  - intros H. apply IH.
    assert (Hset : exists k', k' ∈ dict_keys (dict_set eqb k1 v1 d)
                              /\ eqb k' k1 = true).
    { clear H IH. induction d as [|[k2 v2] d IHd]; simpl.
      - exists k1. split; [by left|apply eqb_refl].
      - destruct (eqb k2 k1) eqn:E; simpl.
        + exists k2. split; [by left|done].
        + destruct IHd as (k' & Hin & Hk). exists k'. split; [by right|done]. }
    destruct H as [[->|H]%elem_of_cons|(k' & Hin & Hk)].
    + by right.
    + by left.
    + right. exists k'. split; [by apply dict_set_keeps|done].
Qed.

End ODictFacts.

(** ** Loops and comprehensions in the error monad *)

Lemma comprehension_Ok {A B} (f : A -> result B) l ys :
  comprehension f l = Ok ys -> Forall2 (fun x y => f x = Ok y) l ys.
Proof.
  revert ys. induction l as [|x l IH]; intros ys; simpl.
  - intros [= <-]. constructor.
  - destruct (f x) as [y|] eqn:Hx; [|done]. simpl.
    destruct (comprehension f l) as [ys'|]; [|done]. simpl.
    intros [= <-]. constructor; auto.
Qed.

Lemma comprehension_total {A B} (f : A -> result B) (g : A -> B) l :
  Forall (fun x => f x = Ok (g x)) l -> comprehension f l = Ok (g <$> l).
Proof.
  induction 1 as [|x l Hx _ IH]; simpl; [done|]. by rewrite Hx, IH.
Qed.

(** ** The score of a block *)

Lemma np_sum_deviation ref angles :
  np_sum (np_square (angle_modulo_360 <$> zip_with Qminus ref angles)) =
  deviation ref angles.
Proof.
  revert angles. induction ref as [|r ref IH]; intros [|x angles]; simpl;
    try done.
  f_equal. apply IH.
Qed.

Lemma rmsda_deviation ref angles :
  length ref = length angles -> angles <> [] ->
  rmsda ref angles = Ok (deviation ref angles).
Proof.
  intros Hlen Hne. unfold rmsda, np_sub.
  rewrite (proj2 (Nat.eqb_eq _ _) Hlen). simpl.
  rewrite <- np_sum_deviation.
  destruct ref as [|r ref], angles as [|x angles]; done.
Qed.

Lemma deviation_nonneg ref angles : 0 <= deviation ref angles.
Proof.
  revert angles. induction ref as [|r ref IH]; intros [|x angles]; simpl;
    try done.
  pose proof (Qsqr_nonneg (angle_modulo_360 (r - x))) as H.
  pose proof (IH angles). simpl in H. lra.
Qed.

Lemma deviation_self ref : deviation ref ref == 0.
Proof.
  induction ref as [|r ref IH]; simpl; [done|].
  rewrite angle_modulo_360_in_range by lra. rewrite IH. ring.
Qed.

(** ** The smallest key *)

Lemma py_min_fold (l : list Q) : forall x,
  let m := foldl (fun m y => if Qlt_le_dec y m then y else m) x l in
  m ∈ x :: l /\ m <= x /\ Forall (Qle m) l.
Proof.
  induction l as [|y l IH]; intros x; simpl.
  - split; [by left|]. split; [lra|constructor].
  - destruct (Qlt_le_dec y x) as [Hlt|Hle].
    + destruct (IH y) as (Hin & Hle & Hall). split; [by right|].
      split; [lra|]. by constructor.
    + destruct (IH x) as (Hin & Hle' & Hall). split.
      * apply elem_of_cons in Hin as [->|Hin]; [by left|by right; right].
      * split; [done|]. constructor; [lra|done].
Qed.

Lemma py_min_Ok l m : py_min l = Ok m -> m ∈ l /\ Forall (Qle m) l.
Proof.
  destruct l as [|x l]; simpl; [done|]. intros [= <-].
  destruct (py_min_fold l x) as (Hin & Hle & Hall).
  split; [done|]. by constructor.
Qed.

Lemma py_min_total l : l <> [] -> exists m, py_min l = Ok m.
Proof. destruct l; [done|]. by eexists. Qed.

(** ** The choice of the block *)

Section Choice.
Variable pb_ref : list (string * list Q).
Variable angles : list Q.
Hypothesis pb_ref_dict : NoDup (dict_keys pb_ref).

Lemma pb_ref_item block ref :
  (block, ref) ∈ pb_ref -> dict_get String.eqb block pb_ref = Ok ref.
Proof using pb_ref_dict.
  clear angles. revert pb_ref_dict. unfold dict_keys.
  induction pb_ref as [|[k v] d IH]; simpl.
  - by intros _ ?%elem_of_nil.
  - intros [Hk Hd]%NoDup_cons [[= -> ->]|Hin]%elem_of_cons.
    + by rewrite String.eqb_refl.
    + destruct (String.eqb_spec k block) as [->|_]; [|by apply IH].
      destruct Hk. apply list_elem_of_fmap. by exists (block, ref).
Qed.

(** The loop over the blocks computes every score in turn and then
    fills the dict from score to block. *)
Lemma score_blocks_fill :
  score_blocks pb_ref angles =
  scores ← comprehension (fun e => r ← rmsda e.2 angles; Ok (r, e.1)) pb_ref;
  Ok (foldl (fun d b => dict_set Qeq_bool b.1 b.2 d) [] scores).
Proof using pb_ref_dict.
  unfold score_blocks.
  enough (Haux : forall l acc, (forall e, e ∈ l -> e ∈ pb_ref) ->
    for_each (score_block pb_ref angles) acc (dict_keys l) =
    scores ← comprehension (fun e => r ← rmsda e.2 angles; Ok (r, e.1)) l;
    Ok (foldl (fun d b => dict_set Qeq_bool b.1 b.2 d) acc scores))
    by (by apply Haux).
  induction l as [|[block ref] l IH]; intros acc Hsub; simpl; [done|].
  assert (Hb : score_block pb_ref angles acc block =
               r ← rmsda ref angles; Ok (dict_set Qeq_bool r block acc)).
  { unfold score_block. by rewrite (pb_ref_item block ref) by (apply Hsub; by left). }
  rewrite Hb. destruct (rmsda ref angles) as [r|]; [|done]. simpl.
  rewrite IH by (intros e He; apply Hsub; by right).
  by destruct (comprehension _ l).
Qed.

(** What [best_block] returns: a block of [pb_ref] whose score no
    other block beats, and which every later block exceeds strictly. *)
Lemma best_block_inv lbl :
  best_block pb_ref angles = Ok lbl ->
  exists l1 ref l2 m,
    pb_ref = l1 ++ (lbl, ref) :: l2 /\ rmsda ref angles = Ok m /\
    Forall (fun e => exists m', rmsda e.2 angles = Ok m' /\ m <= m') pb_ref /\
    Forall (fun e => exists m', rmsda e.2 angles = Ok m' /\ m < m') l2.
Proof using pb_ref_dict.
  unfold best_block. rewrite score_blocks_fill.
  destruct (comprehension _ pb_ref) as [scores|] eqn:Hc; [|done]. simpl.
  destruct (py_min _) as [m0|] eqn:Hmin; [|done]. simpl. intros Hget.
  apply py_min_Ok in Hmin as [_ Hall]. apply comprehension_Ok in Hc.
  assert (Hlow : forall b, b ∈ scores -> m0 <= b.1).
  { intros [s' lb] Hb.
    destruct (dict_fill_covers Qeq_bool Qeq_bool_refl Qeq_bool_sym
                Qeq_bool_trans s' scores [])
      as (k & Hk & Hks); [left; apply list_elem_of_fmap; by exists (s', lb)|].
    rewrite Forall_forall in Hall. apply Hall in Hk.
    apply Qeq_bool_eq in Hks. simpl. lra. }
  apply (dict_get_fill Qeq_bool Qeq_bool_sym Qeq_bool_trans) in Hget
    as [(s1 & k' & s2 & -> & Hk & Hs2)|[? _]]; [|done].
  apply Qeq_bool_eq in Hk.
  pose proof Hc as Hc'.
  apply Forall2_app_inv_r in Hc' as (l1 & l2' & Hl1 & Hl2' & Heq).
  apply Forall2_cons_inv_r in Hl2' as ([lbl' ref] & l2 & He & Hl2 & ->).
  simpl in He. destruct (rmsda ref angles) as [m|] eqn:Hm; [|done].
  simpl in He. injection He as -> ->.
  exists l1, ref, l2, k'. split; [done|]. split; [done|]. split.
  - eapply Forall2_Forall_l; [exact Hc|]. apply Forall_forall.
    intros b Hb [l' r'] Hr. simpl in *.
    destruct (rmsda r' angles) as [m'|]; [|done]. injection Hr as <-.
    exists m'. split; [done|]. apply Hlow in Hb. simpl in Hb. lra.
  - eapply Forall2_Forall_l; [exact Hl2|].
    rewrite Forall_forall in Hs2. apply Forall_forall.
    intros b Hb [l' r'] Hr. simpl in *.
    destruct (rmsda r' angles) as [m'|]; [|done]. injection Hr as <-.
    exists m'. split; [done|].
    assert (m0 <= m') by (apply (Hlow (m', l')); apply elem_of_app; right; by right).
    apply Hs2 in Hb. simpl in Hb. apply Qeq_bool_neq in Hb. lra.
Qed.

(** When every block has as many angles as the window, a block is
    chosen. *)
Lemma best_block_total :
  pb_ref <> [] -> angles <> [] ->
  Forall (fun e => length e.2 = length angles) pb_ref ->
  exists lbl, best_block pb_ref angles = Ok lbl.
Proof using pb_ref_dict.
  intros Hne Hang Harity. unfold best_block. rewrite score_blocks_fill.
  rewrite (comprehension_total _ (fun e => (deviation e.2 angles, e.1))).
  2:{ eapply Forall_impl; [exact Harity|]. intros [l r] Hlen. simpl in *.
      by rewrite rmsda_deviation. }
  simpl. destruct pb_ref as [|[l r] rest]; [done|].
  set (scores := _ <$> _).
  destruct (dict_fill_covers Qeq_bool Qeq_bool_refl Qeq_bool_sym Qeq_bool_trans
              (deviation r angles) scores []) as (k & Hk & _).
  { left. subst scores. simpl. by left. }
  destruct (py_min_total (dict_keys (foldl
     (fun d b => dict_set Qeq_bool b.1 b.2 d) [] scores))) as [m Hm].
  { intros Hnil. rewrite Hnil in Hk. by apply elem_of_nil in Hk. }
  rewrite Hm. simpl. apply py_min_Ok in Hm as [Hin _].
  by apply dict_get_key; [apply Qeq_bool_refl|].
Qed.

End Choice.

(** ** The window of a residue *)

Section Window.
Variable dihedrals : gmap Z torsion.

Lemma None_in_spec angles : None_in angles = true <-> None ∈ angles.
Proof.
  unfold None_in. induction angles as [|[x|] angles IH]; simpl.
  - split; [done|]. by intros ?%elem_of_nil.
  - rewrite IH, elem_of_cons. split; [by right|]. by intros [?|?].
  - split; [|done]. intros _. by left.
Qed.

(** The [try] block, with the five residues it reads made explicit. *)
Lemma window_unfold i :
  window dihedrals i =
  match dihedrals !! (i - 2)%Z, dihedrals !! (i - 1)%Z, dihedrals !! i,
        dihedrals !! (i + 1)%Z, dihedrals !! (i + 2)%Z with
  | Some a, Some b, Some c, Some d, Some e =>
      let angles := [psi a; phi b; psi b; phi c; psi c; phi d; psi d; phi e] in
      if None_in angles then None else Some (numpy_array angles)
  | _, _, _, _, _ => None
  end.
Proof.
  unfold window, eight_angles, dihedral_item.
  destruct (dihedrals !! (i - 2)%Z); [|done].
  destruct (dihedrals !! (i - 1)%Z); [|done].
  destruct (dihedrals !! i); [|done].
  destruct (dihedrals !! (i + 1)%Z); [|done].
  destruct (dihedrals !! (i + 2)%Z); done.
Qed.

Lemma window_assembled i w : window dihedrals i = Some w <-> assembled dihedrals i w.
Proof.
  rewrite window_unfold. unfold assembled, required. split.
  - destruct (dihedrals !! (i - 2)%Z) as [a|] eqn:Ha; [|done].
    destruct (dihedrals !! (i - 1)%Z) as [b|] eqn:Hb; [|done].
    destruct (dihedrals !! i) as [c|] eqn:Hc; [|done].
    destruct (dihedrals !! (i + 1)%Z) as [d|] eqn:Hd; [|done].
    destruct (dihedrals !! (i + 2)%Z) as [e|] eqn:He; [|done].
    cbv zeta.
    destruct (psi a) eqn:?; [|done]. destruct (phi b) eqn:?; [|done].
    destruct (psi b) eqn:?; [|done]. destruct (phi c) eqn:?; [|done].
    destruct (psi c) eqn:?; [|done]. destruct (phi d) eqn:?; [|done].
    destruct (psi d) eqn:?; [|done]. destruct (phi e) eqn:?; [|done].
    simpl. intros [= <-]. repeat constructor; simpl; eauto.
  - intros H.
    do 8 (let x := fresh "x" in let k := fresh "k" in let t := fresh "t" in
          let Ht := fresh "Ht" in let Hx := fresh "Hx" in
          apply Forall2_cons_inv_l in H as (x & k & (t & Ht & Hx) & H & ->)).
    apply Forall2_nil_inv_l in H as ->.
    simpl in *. simplify_eq.
    repeat match goal with H : dihedrals !! _ = Some _ |- _ => rewrite H end.
    cbv zeta.
    repeat match goal with H : phi _ = Some _ |- _ => rewrite H end.
    repeat match goal with H : psi _ = Some _ |- _ => rewrite H end.
    done.
Qed.

Lemma window_length i w : window dihedrals i = Some w -> length w = 8%nat.
Proof.
  intros H%window_assembled. apply Forall2_length in H. by rewrite <- H.
Qed.

Lemma window_unassembled i : window dihedrals i = None <-> unassembled dihedrals i.
Proof.
  rewrite window_unfold. unfold unassembled, required. split.
  - destruct (dihedrals !! (i - 2)%Z) as [a|] eqn:Ha;
      [|intros _; left; exists (i - 2)%Z; split; [lia|done]].
    destruct (dihedrals !! (i - 1)%Z) as [b|] eqn:Hb;
      [|intros _; left; exists (i - 1)%Z; split; [lia|done]].
    destruct (dihedrals !! i) as [c|] eqn:Hc;
      [|intros _; left; exists i; split; [lia|done]].
    destruct (dihedrals !! (i + 1)%Z) as [d|] eqn:Hd;
      [|intros _; left; exists (i + 1)%Z; split; [lia|done]].
    destruct (dihedrals !! (i + 2)%Z) as [e|] eqn:He;
      [|intros _; left; exists (i + 2)%Z; split; [lia|done]].
    cbv zeta. destruct (None_in _) eqn:Hin; [|done]. intros _. right.
    apply None_in_spec in Hin. rewrite !elem_of_cons in Hin.
    destruct Hin as [H|[H|[H|[H|[H|[H|[H|[H|H]]]]]]]];
      [..|by apply elem_of_nil in H]; symmetry in H.
    + exists (i - 2)%Z, psi, a. split; [set_solver|done].
    + exists (i - 1)%Z, phi, b. split; [set_solver|done].
    + exists (i - 1)%Z, psi, b. split; [set_solver|done].
    + exists i, phi, c. split; [set_solver|done].
    + exists i, psi, c. split; [set_solver|done].
    + exists (i + 1)%Z, phi, d. split; [set_solver|done].
    + exists (i + 1)%Z, psi, d. split; [set_solver|done].
    + exists (i + 2)%Z, phi, e. split; [set_solver|done].
  - intros Hun.
    destruct (dihedrals !! (i - 2)%Z) as [a|] eqn:Ha; [|done].
    destruct (dihedrals !! (i - 1)%Z) as [b|] eqn:Hb; [|done].
    destruct (dihedrals !! i) as [c|] eqn:Hc; [|done].
    destruct (dihedrals !! (i + 1)%Z) as [d|] eqn:Hd; [|done].
    destruct (dihedrals !! (i + 2)%Z) as [e|] eqn:He; [|done].
    cbv zeta. destruct (None_in _) eqn:Hin; [done|]. exfalso.
    apply not_true_iff_false in Hin. apply Hin, None_in_spec. clear Hin.
    destruct Hun as [(j & Hj & Hnone)|(j & f & t & Hjf & Ht & Hf)].
    + assert (j = i - 2 \/ j = i - 1 \/ j = i \/ j = i + 1 \/ j = i + 2)%Z
        as [->|[->|[->|[->| ->]]]] by lia; congruence.
    + rewrite !elem_of_cons in Hjf.
      destruct Hjf as [H|[H|[H|[H|[H|[H|[H|[H|H]]]]]]]];
        [..|by apply elem_of_nil in H]; injection H as -> ->;
        simplify_eq; rewrite <- Hf; set_solver.
Qed.

End Window.

(** ** Strings of labels *)

Lemma append_assoc (a b c : string) : (a +:+ b) +:+ c = a +:+ (b +:+ c).
Proof.
  induction a as [|x a IH]; [done|].
  change (String x ((a +:+ b) +:+ c) = String x (a +:+ b +:+ c)). by rewrite IH.
Qed.

Lemma append_empty_r (a : string) : a +:+ "" = a.
Proof.
  induction a as [|x a IH]; [done|].
  change (String x (a +:+ "") = String x a). by rewrite IH.
Qed.

Lemma join_labels_length labels :
  Forall (fun l => String.length l = 1%nat) labels ->
  String.length (join_labels labels) = length labels.
Proof.
  induction 1 as [|l labels Hl _ IH]; simpl; [done|].
  destruct l as [|c [|? ?]]; simpl in *; try done.
  change (S (String.length (join_labels labels)) = S (length labels)).
  by rewrite IH.
Qed.

Lemma label_at_join labels : forall n lbl,
  Forall (fun l => String.length l = 1%nat) labels ->
  labels !! n = Some lbl -> label_at n (join_labels labels) = lbl.
Proof.
  unfold label_at.
  induction labels as [|l labels IH]; intros n lbl Hall Hn; [done|].
  apply Forall_cons in Hall as [Hl Hall].
  destruct l as [|c [|? ?]]; simpl in Hl; try done.
  destruct n as [|n]; simpl in *.
  - injection Hn as <-. by destruct (join_labels labels).
  - by apply IH.
Qed.

(** ** The order of the residues *)

Section Sorted.
Variable dihedrals : gmap Z torsion.

Lemma sorted_elem i : i ∈ sorted dihedrals <-> is_Some (dihedrals !! i).
Proof.
  unfold sorted. rewrite merge_sort_Permutation, list_elem_of_fmap. split.
  - intros ([j t] & -> & Hin). apply elem_of_map_to_list in Hin. by exists t.
  - intros [t Ht]. exists (i, t). split; [done|]. by apply elem_of_map_to_list.
Qed.

Lemma sorted_length : length (sorted dihedrals) = size dihedrals.
Proof.
  unfold sorted. rewrite merge_sort_Permutation, length_fmap.
  apply length_map_to_list.
Qed.

Lemma sorted_ascending : StronglySorted Z.lt (sorted dihedrals).
Proof.
  assert (Hnd : NoDup (sorted dihedrals)).
  { unfold sorted. rewrite merge_sort_Permutation. apply NoDup_fst_map_to_list. }
  assert (Hle : StronglySorted Z.le (sorted dihedrals)).
  { unfold sorted. apply StronglySorted_merge_sort; apply _. }
  induction Hle as [|x l _ IH Hx]; [constructor|].
  apply NoDup_cons in Hnd as [Hx' Hl]. constructor; [by apply IH|].
  rewrite Forall_forall in Hx. apply Forall_forall. intros y Hy.
  assert (x <> y) by (by intros ->). specialize (Hx y Hy). lia.
Qed.

End Sorted.

(** ** The loop over the residues *)

Section Loop.
Variable pb_ref : list (string * list Q).
Variable dihedrals : gmap Z torsion.

(** What a residue appends does not depend on what was appended
    before. *)
Lemma assign_residue_acc acc i :
  assign_residue pb_ref dihedrals acc i =
  lbl ← assign_residue pb_ref dihedrals "" i; Ok (acc +:+ lbl).
Proof.
  unfold assign_residue. destruct (window dihedrals i); simpl; [|done].
  by destruct (best_block pb_ref l).
Qed.

Lemma for_each_labels l : forall acc labels,
  Forall2 (fun i lbl => assign_residue pb_ref dihedrals "" i = Ok lbl) l labels ->
  for_each (assign_residue pb_ref dihedrals) acc l =
  Ok (acc +:+ join_labels labels).
Proof.
  induction l as [|i l IH]; intros acc labels Hall.
  - apply Forall2_nil_inv_l in Hall as ->. simpl. by rewrite append_empty_r.
  - apply Forall2_cons_inv_l in Hall as (lbl & labels' & Hi & Hall & ->).
    simpl. rewrite assign_residue_acc, Hi. simpl.
    rewrite (IH _ _ Hall). by rewrite append_assoc.
Qed.

(** A residue without a window appends the sentinel, whatever the
    library. *)
Lemma assign_residue_unassembled acc i :
  unassembled dihedrals i ->
  assign_residue pb_ref dihedrals acc i = Ok (acc +:+ "Z").
Proof.
  intros H%window_unassembled. unfold assign_residue. by rewrite H.
Qed.

Hypothesis pb_ref_ok : library_ok pb_ref.

(** A residue with a window appends the label of a block of the
    library. *)
Lemma assign_residue_assembled i w :
  assembled dihedrals i w ->
  exists lbl, best_block pb_ref w = Ok lbl /\
              assign_residue pb_ref dihedrals "" i = Ok lbl.
Proof using pb_ref_ok.
  intros H%window_assembled. destruct pb_ref_ok as [Hd Hne Har _].
  destruct (best_block_total pb_ref w Hd Hne) as [lbl Hlbl].
  - apply window_length in H. by destruct w.
  - apply window_length in H. by rewrite H.
  - exists lbl. split; [done|]. unfold assign_residue. by rewrite H, Hlbl.
Qed.

Lemma best_block_label w lbl :
  best_block pb_ref w = Ok lbl -> lbl ∈ dict_keys pb_ref.
Proof using pb_ref_ok.
  intros (l1 & ref & l2 & m & Heq & _)%best_block_inv;
    [|apply pb_ref_ok].
  unfold dict_keys. rewrite Heq, fmap_app, elem_of_app. right. by left.
Qed.

Lemma assign_residue_total i :
  exists lbl, assign_residue pb_ref dihedrals "" i = Ok lbl /\
              String.length lbl = 1%nat.
Proof using pb_ref_ok.
  destruct (window dihedrals i) as [w|] eqn:Hw.
  - apply window_assembled in Hw.
    destruct (assign_residue_assembled i w Hw) as (lbl & Hb & Hl).
    exists lbl. split; [done|]. apply best_block_label in Hb.
    apply list_elem_of_fmap in Hb as (e & -> & He).
    destruct pb_ref_ok as [_ _ _ Hlab]. rewrite Forall_forall in Hlab.
    by apply Hlab.
  - exists "Z"%string. split; [|done]. unfold assign_residue. by rewrite Hw.
Qed.

(** The run returns, and its sequence is made of one label of one
    character per residue, in the order of [sorted]. *)
Lemma PB_assign_labels :
  exists labels,
    PB_assign pb_ref dihedrals = Ok (join_labels labels) /\
    Forall2 (fun i lbl => assign_residue pb_ref dihedrals "" i = Ok lbl)
            (sorted dihedrals) labels /\
    Forall (fun l => String.length l = 1%nat) labels.
Proof using pb_ref_ok.
  unfold PB_assign.
  assert (H : exists labels,
    Forall2 (fun i lbl => assign_residue pb_ref dihedrals "" i = Ok lbl)
            (sorted dihedrals) labels /\
    Forall (fun l => String.length l = 1%nat) labels).
  { induction (sorted dihedrals) as [|i l (labels & H1 & H2)].
    - exists []. by split; constructor.
    - destruct (assign_residue_total i) as (lbl & Hl & Hlen).
      exists (lbl :: labels). by split; constructor. }
  destruct H as (labels & H1 & H2). exists labels.
  split; [|done]. by rewrite (for_each_labels _ _ _ H1).
Qed.

End Loop.

(** ** The assignment: what the sequence holds *)

(** C1: with the library of the data model, the run returns a
    sequence; at the position of every residue whose window [w] is
    assembled stands the label of a block whose score is the smallest
    of all, where the score the code computes ([rmsda]: difference
    reference minus window, wrap of each component, squares, sum) is
    the sum of squared wrapped differences of the specification
    ([deviation], no root, no mean).  In particular, when [w] is the
    array of a block and every other block has a score that is not
    zero, that block's label is assigned and its score is zero. *)
Theorem PB_assign_best_match pb_ref dihedrals :
  library_ok pb_ref ->
  exists pb_seq,
    PB_assign pb_ref dihedrals = Ok pb_seq /\
    forall n i w,
      sorted dihedrals !! n = Some i -> assembled dihedrals i w ->
      exists ref,
        (label_at n pb_seq, ref) ∈ pb_ref /\
        (forall e, e ∈ pb_ref ->
           rmsda e.2 w = Ok (deviation e.2 w) /\
           deviation ref w <= deviation e.2 w) /\
        (forall lbl,
           (lbl, w) ∈ pb_ref ->
           (forall e, e ∈ pb_ref -> e.1 <> lbl -> ~ deviation e.2 w == 0) ->
           label_at n pb_seq = lbl /\ deviation w w == 0).
Proof.
  intros Hok.
  destruct (PB_assign_labels pb_ref dihedrals Hok) as (labels & Hrun & Hall & Hone).
  exists (join_labels labels). split; [done|]. intros n i w Hn Hw.
  destruct (Forall2_lookup_l _ _ _ _ _ Hall Hn) as (lbl' & Hlbl' & Hres).
  rewrite (label_at_join labels n lbl' Hone Hlbl').
  destruct (assign_residue_assembled pb_ref dihedrals Hok i w Hw)
    as (lbl'' & Hbest & Hres').
  rewrite Hres in Hres'. injection Hres' as <-.
  apply best_block_inv in Hbest
    as (l1 & ref & l2 & m & Heq & Hm & Hmin & _); [|apply Hok].
  assert (Hlen : length w = 8%nat)
    by (apply (window_length dihedrals i), window_assembled, Hw).
  assert (Hscore : forall e, e ∈ pb_ref -> rmsda e.2 w = Ok (deviation e.2 w)).
  { intros e He. apply rmsda_deviation; [|by destruct w].
    destruct Hok as [_ _ Har _]. rewrite Forall_forall in Har.
    by rewrite Har, Hlen. }
  assert (Hin : (lbl', ref) ∈ pb_ref).
  { rewrite Heq, elem_of_app. right. by left. }
  pose proof (Hscore _ Hin) as Hs. simpl in Hs.
  rewrite Hs in Hm. injection Hm as <-. clear Hs.
  assert (Hle : forall e, e ∈ pb_ref -> deviation ref w <= deviation e.2 w).
  { intros e He. rewrite Forall_forall in Hmin.
    destruct (Hmin e He) as (m' & Hm' & Hle).
    rewrite (Hscore e He) in Hm'. by injection Hm' as <-. }
  exists ref. split; [done|]. split; [by auto|].
  intros lbl Hlbl Hothers. split; [|apply deviation_self].
  destruct (decide (lbl' = lbl)) as [|Hne]; [done|]. exfalso.
  apply (Hothers (lbl', ref) Hin Hne). simpl.
  pose proof (Hle (lbl, w) Hlbl) as H1. simpl in H1.
  pose proof (deviation_self w). pose proof (deviation_nonneg ref w). lra.
Qed.

Lemma library_ab_ok : library_ok library_ab.
Proof.
  split.
  - by apply (bool_decide_unpack (NoDup _)).
  - done.
  - by repeat constructor.
  - by repeat constructor.
Qed.

Lemma PB_assign_best_match_witness :
  exists pb_seq,
    PB_assign library_ab (five_residues 0 0) = Ok pb_seq /\
    forall n i w,
      sorted (five_residues 0 0) !! n = Some i ->
      assembled (five_residues 0 0) i w ->
      exists ref,
        (label_at n pb_seq, ref) ∈ library_ab /\
        (forall e, e ∈ library_ab ->
           rmsda e.2 w = Ok (deviation e.2 w) /\
           deviation ref w <= deviation e.2 w) /\
        (forall lbl,
           (lbl, w) ∈ library_ab ->
           (forall e, e ∈ library_ab -> e.1 <> lbl -> ~ deviation e.2 w == 0) ->
           label_at n pb_seq = lbl /\ deviation w w == 0).
Proof. apply (PB_assign_best_match library_ab (five_residues 0 0)), library_ab_ok. Defined.

(** C9: among the blocks that tie for the smallest score, the one
    chosen is the last in the iteration order of the library: every
    block after the chosen one has a strictly larger score, and no
    block has a smaller one. *)
Theorem best_block_last_of_ties pb_ref angles :
  NoDup (dict_keys pb_ref) -> pb_ref <> [] -> angles <> [] ->
  Forall (fun e => length e.2 = length angles) pb_ref ->
  exists l1 lbl ref l2,
    best_block pb_ref angles = Ok lbl /\
    pb_ref = l1 ++ (lbl, ref) :: l2 /\
    Forall (fun e => rmsda e.2 angles = Ok (deviation e.2 angles) /\
                     deviation ref angles <= deviation e.2 angles) pb_ref /\
    Forall (fun e => deviation ref angles < deviation e.2 angles) l2.
Proof.
  intros Hd Hne Hang Har.
  destruct (best_block_total pb_ref angles Hd Hne Hang Har) as [lbl Hlbl].
  destruct (best_block_inv pb_ref angles Hd lbl Hlbl)
    as (l1 & ref & l2 & m & Heq & Hm & Hmin & Hlater).
  assert (Hscore : forall e, e ∈ pb_ref ->
                     rmsda e.2 angles = Ok (deviation e.2 angles)).
  { intros e He. apply rmsda_deviation; [|done].
    rewrite Forall_forall in Har. by apply Har. }
  assert (Hin : (lbl, ref) ∈ pb_ref).
  { rewrite Heq, elem_of_app. right. by left. }
  pose proof (Hscore _ Hin) as Hs. simpl in Hs.
  rewrite Hs in Hm. injection Hm as <-. clear Hs.
  exists l1, lbl, ref, l2. split; [done|]. split; [done|]. split.
  - apply Forall_forall. intros e He. split; [by apply Hscore|].
    rewrite Forall_forall in Hmin. destruct (Hmin e He) as (m' & Hm' & Hle).
    rewrite (Hscore e He) in Hm'. by injection Hm' as <-.
  - apply Forall_forall. intros e He.
    rewrite Forall_forall in Hlater. destruct (Hlater e He) as (m' & Hm' & Hlt).
    rewrite Hscore in Hm'; [by injection Hm' as <-|].
    rewrite Heq, elem_of_app. right. by right.
Qed.

(** C9 at work: two blocks tie at score zero, the later one is chosen. *)
Lemma best_block_last_of_ties_witness :
  let zeros := [0; 0; 0; 0; 0; 0; 0; 0] in
  let pb_ref := [("a"%string, zeros); ("b"%string, zeros);
                 ("c"%string, [10; 10; 10; 10; 10; 10; 10; 10])] in
  best_block pb_ref zeros = Ok "b"%string /\
  exists l1 lbl ref l2,
    best_block pb_ref zeros = Ok lbl /\
    pb_ref = l1 ++ (lbl, ref) :: l2 /\
    Forall (fun e => rmsda e.2 zeros = Ok (deviation e.2 zeros) /\
                     deviation ref zeros <= deviation e.2 zeros) pb_ref /\
    Forall (fun e => deviation ref zeros < deviation e.2 zeros) l2.
Proof.
  intros zeros pb_ref. split; [by vm_compute|].
  apply (best_block_last_of_ties pb_ref zeros).
  - by apply (bool_decide_unpack (NoDup _)).
  - done.
  - done.
  - by repeat constructor.
Defined.

(** C3: with the library of the data model, none of whose labels is
    the sentinel, the run returns a sequence with one character per
    residue, and the character at the position of residue [i] is ["Z"]
    exactly when the window of [i] cannot be assembled: a neighbour
    among [i-2 .. i+2] is absent or a required phi or psi is null. *)
Theorem PB_assign_sentinel pb_ref dihedrals :
  library_ok pb_ref -> "Z"%string ∉ dict_keys pb_ref ->
  exists pb_seq,
    PB_assign pb_ref dihedrals = Ok pb_seq /\
    String.length pb_seq = length (sorted dihedrals) /\
    forall n i,
      sorted dihedrals !! n = Some i ->
      (label_at n pb_seq = "Z"%string <-> unassembled dihedrals i).
Proof.
  intros Hok HZ.
  destruct (PB_assign_labels pb_ref dihedrals Hok) as (labels & Hrun & Hall & Hone).
  exists (join_labels labels). split; [done|]. split.
  { rewrite (join_labels_length _ Hone). symmetry. by eapply Forall2_length. }
  intros n i Hn.
  destruct (Forall2_lookup_l _ _ _ _ _ Hall Hn) as (lbl & Hlbl & Hres).
  rewrite (label_at_join labels n lbl Hone Hlbl). split.
  - intros ->. apply window_unassembled.
    destruct (window dihedrals i) as [w|] eqn:Hw; [|done]. exfalso.
    apply window_assembled in Hw.
    destruct (assign_residue_assembled pb_ref dihedrals Hok i w Hw)
      as (lbl & Hbest & Hres').
    rewrite Hres in Hres'. injection Hres' as <-.
    by apply HZ, (best_block_label pb_ref Hok w).
  - intros Hun.
    rewrite (assign_residue_unassembled pb_ref dihedrals "" i Hun) in Hres.
    by injection Hres as <-.
Qed.

Lemma PB_assign_sentinel_witness :
  exists pb_seq,
    PB_assign library_ab (five_residues 0 0) = Ok pb_seq /\
    String.length pb_seq = length (sorted (five_residues 0 0)) /\
    forall n i,
      sorted (five_residues 0 0) !! n = Some i ->
      (label_at n pb_seq = "Z"%string <-> unassembled (five_residues 0 0) i).
Proof.
  apply (PB_assign_sentinel library_ab (five_residues 0 0)).
  - apply library_ab_ok.
  - by apply (bool_decide_unpack (_ ∉ _)).
Defined.

(** C5: with the library of the data model, the run returns a sequence
    of exactly as many characters as the torsion map has residues; the
    residues are taken in strictly ascending order, each residue of the
    map once, and the [n]-th character is the label of the [n]-th
    residue in that order. *)
Theorem PB_assign_complete pb_ref dihedrals :
  library_ok pb_ref ->
  exists pb_seq,
    PB_assign pb_ref dihedrals = Ok pb_seq /\
    String.length pb_seq = size dihedrals /\
    StronglySorted Z.lt (sorted dihedrals) /\
    (forall i, i ∈ sorted dihedrals <-> is_Some (dihedrals !! i)) /\
    forall n i,
      sorted dihedrals !! n = Some i ->
      assign_residue pb_ref dihedrals "" i = Ok (label_at n pb_seq).
Proof.
  intros Hok.
  destruct (PB_assign_labels pb_ref dihedrals Hok) as (labels & Hrun & Hall & Hone).
  exists (join_labels labels). split; [done|]. split.
  { rewrite (join_labels_length _ Hone), <- sorted_length.
    symmetry. by eapply Forall2_length. }
  split; [apply sorted_ascending|]. split; [apply sorted_elem|].
  intros n i Hn.
  destruct (Forall2_lookup_l _ _ _ _ _ Hall Hn) as (lbl & Hlbl & Hres).
  by rewrite (label_at_join labels n lbl Hone Hlbl).
Qed.

Lemma PB_assign_complete_witness :
  exists pb_seq,
    PB_assign library_ab (five_residues 0 0) = Ok pb_seq /\
    String.length pb_seq = size (five_residues 0 0) /\
    StronglySorted Z.lt (sorted (five_residues 0 0)) /\
    (forall i, i ∈ sorted (five_residues 0 0) <->
               is_Some (five_residues 0 0 !! i)) /\
    forall n i,
      sorted (five_residues 0 0) !! n = Some i ->
      assign_residue library_ab (five_residues 0 0) "" i = Ok (label_at n pb_seq).
Proof. apply (PB_assign_complete library_ab (five_residues 0 0)), library_ab_ok. Defined.

(** C7: with the library of blocks [a] (eight zeros) and [b] (eight
    tens) and residues 1 to 5, all torsions resolved and those of the
    window of residue 3 equal to zero, the window of residue 3 is eight
    zeros, its block is [a], and the sequence is ["ZZaZZ"]. *)
Theorem PB_assign_scenario phi1 psi5 :
  window (five_residues phi1 psi5) 3 = Some [0; 0; 0; 0; 0; 0; 0; 0] /\
  best_block library_ab [0; 0; 0; 0; 0; 0; 0; 0] = Ok "a"%string /\
  PB_assign library_ab (five_residues phi1 psi5) = Ok "ZZaZZ"%string.
Proof. by vm_compute. Qed.

(** C8: the window of a residue never raises: a residue whose window
    cannot be assembled appends ["Z"] and the loop goes on with the
    next residue, whatever the library; the empty torsion map gives the
    empty sequence, whatever the library; and with the library of the
    data model the whole run returns a sequence, one character per
    residue, for every torsion map. *)
Theorem PB_assign_no_exception pb_ref dihedrals :
  PB_assign pb_ref ∅ = Ok ""%string /\
  (forall pb_seq i rest,
     unassembled dihedrals i ->
     for_each (assign_residue pb_ref dihedrals) pb_seq (i :: rest) =
     for_each (assign_residue pb_ref dihedrals) (pb_seq +:+ "Z") rest) /\
  (library_ok pb_ref ->
   exists pb_seq, PB_assign pb_ref dihedrals = Ok pb_seq /\
                  String.length pb_seq = size dihedrals).
Proof.
  split; [done|]. split.
  - intros pb_seq i rest Hun. simpl.
    by rewrite (assign_residue_unassembled pb_ref dihedrals pb_seq i Hun).
  - intros Hok.
    destruct (PB_assign_labels pb_ref dihedrals Hok)
      as (labels & Hrun & Hall & Hone).
    exists (join_labels labels). split; [done|].
    rewrite (join_labels_length _ Hone), <- sorted_length.
    symmetry. by eapply Forall2_length.
Qed.

Lemma PB_assign_no_exception_witness :
  exists pb_seq,
    PB_assign library_ab (five_residues 0 0) = Ok pb_seq /\
    String.length pb_seq = size (five_residues 0 0).
Proof.
  apply (PB_assign_no_exception library_ab (five_residues 0 0)), library_ab_ok.
Defined.

(** ** Splitting a rendered text *)

Lemma plain_contains c t :
  plain t = true -> is_space c = true \/ c = hash -> contains c t = false.
Proof.
  intros Ht Hc. induction t as [|c' t IH]; [done|]. simpl in *.
  apply andb_prop in Ht as [[Hs Hh]%andb_prop Ht].
  rewrite (IH Ht), orb_false_r. apply Ascii.eqb_neq. intros ->.
  destruct Hc as [Hc| ->].
  - by rewrite Hc in Hs.
  - by rewrite Ascii.eqb_refl in Hh.
Qed.

Lemma contains_append c a b :
  contains c (a +:+ b) = contains c a || contains c b.
Proof.
  induction a as [|x a IH]; [done|].
  change (Ascii.eqb x c || contains c (a +:+ b) =
          Ascii.eqb x c || contains c a || contains c b).
  by rewrite IH, orb_assoc.
Qed.

Lemma contains_concat c toks :
  Forall (fun t => plain t = true) toks ->
  is_space c = true \/ c = hash -> c <> " "%char ->
  contains c (String.concat " " toks) = false.
Proof.
  intros Hall Hc Hsp. induction Hall as [|t toks Ht _ IH]; [done|].
  destruct toks as [|t' toks]; [by apply plain_contains|].
  change (contains c (t +:+ " " +:+ String.concat " " (t' :: toks)) = false).
  assert (Hblank : contains c " " = false).
  { change (Ascii.eqb " " c || false = false).
    rewrite orb_false_r. by apply Ascii.eqb_neq. }
  by rewrite !contains_append, (plain_contains c t Ht Hc), IH, Hblank.
Qed.

Lemma contains_render_line c e :
  token e.1 = true -> Forall (fun t => token t = true) e.2 ->
  is_space c = true \/ c = hash -> c <> " "%char ->
  contains c (render_line e) = false.
Proof.
  intros [_ Hl]%andb_prop Hvs. apply contains_concat. constructor; [done|].
  eapply Forall_impl; [exact Hvs|]. by intros t [_ Ht]%andb_prop.
Qed.

Lemma split_newline_plain x :
  contains newline x = false -> split_newline x = [x].
Proof.
  induction x as [|c x IH]; [done|]. simpl.
  intros [Hc Hx]%orb_false_elim. by rewrite Hc, (IH Hx).
Qed.

Lemma split_newline_append x s :
  contains newline x = false ->
  split_newline (x +:+ String newline s) = x :: split_newline s.
Proof.
  induction x as [|c x IH]; [done|]. simpl.
  intros [Hc Hx]%orb_false_elim.
  change (split_newline (String c (x +:+ String newline s)) =
          String c x :: split_newline s).
  simpl. by rewrite Hc, (IH Hx).
Qed.

Lemma split_newline_concat lines :
  lines <> [] -> Forall (fun l => contains newline l = false) lines ->
  split_newline (String.concat (String newline "") lines) = lines.
Proof.
  intros Hne Hall. induction Hall as [|x lines Hx Hall IH]; [done|].
  destruct lines as [|y lines]; [by apply split_newline_plain|].
  change (split_newline (x +:+ String newline (String.concat (String newline "")
                                                 (y :: lines))) = x :: y :: lines).
  rewrite (split_newline_append _ _ Hx). by rewrite IH.
Qed.

Lemma token_cons c t :
  token (String c t) = true ->
  is_space c = false /\ (t = ""%string \/ token t = true).
Proof.
  unfold token. simpl. intros [[Hs _]%andb_prop Ht]%andb_prop.
  split; [by apply negb_true_iff|]. destruct t; [by left|by right].
Qed.

Lemma split_space_cons c s :
  is_space c = false ->
  split_space (String c s) =
  match s with
  | EmptyString => [String c EmptyString]
  | String c' _ =>
      if is_space c' then String c EmptyString :: split_space s
      else match split_space s with
           | w :: ws => String c w :: ws
           | [] => [String c EmptyString]
           end
  end.
Proof. intros H. destruct s; simpl; by rewrite H. Qed.

Lemma split_space_token t : token t = true -> split_space t = [t].
Proof.
  induction t as [|c t IH]; [done|].
  intros [Hc [-> |Ht]]%token_cons; rewrite (split_space_cons _ _ Hc); [done|].
  destruct t as [|c' t']; [done|].
  destruct (token_cons _ _ Ht) as [Hc' _]. by rewrite Hc', (IH Ht).
Qed.

Lemma split_space_append t s :
  token t = true ->
  split_space (t +:+ String " " s) = t :: split_space s.
Proof.
  induction t as [|c t IH]; [done|].
  intros [Hc [-> |Ht]]%token_cons.
  - change (split_space (String c (String " " s)) = String c "" :: split_space s).
    by rewrite (split_space_cons _ _ Hc).
  - change (split_space (String c (t +:+ String " " s)) =
            String c t :: split_space s).
    rewrite (split_space_cons _ _ Hc), (IH Ht).
    destruct t as [|c' t']; [done|].
    destruct (token_cons _ _ Ht) as [Hc' _].
    change (String c' t' +:+ String " " s)
      with (String c' (t' +:+ String " " s)).
    cbv iota. by rewrite Hc'.
Qed.

Lemma split_space_concat toks :
  Forall (fun t => token t = true) toks ->
  split_space (String.concat " " toks) = toks.
Proof.
  induction 1 as [|t toks Ht _ IH]; [done|].
  destruct toks as [|t' toks]; [by apply split_space_token|].
  change (split_space (t +:+ String " " (String.concat " " (t' :: toks))) =
          t :: t' :: toks).
  by rewrite (split_space_append _ _ Ht), IH.
Qed.

Lemma split_space_render_line e :
  token e.1 = true -> Forall (fun t => token t = true) e.2 ->
  split_space (render_line e) = e.1 :: e.2.
Proof. intros Hl Hvs. apply split_space_concat. by constructor. Qed.

Lemma kept_render_line e :
  token e.1 = true -> Forall (fun t => token t = true) e.2 ->
  kept (render_line e) = true.
Proof.
  intros Hl Hvs. unfold kept.
  rewrite (contains_render_line hash e Hl Hvs) by (by right || done).
  rewrite andb_true_r. destruct e as [[|c l] vs]; [done|].
  unfold render_line. simpl. by destruct vs.
Qed.

(** ** The reader of the definitions *)

Lemma dict_get_absent {V} (k : string) (d : list (string * V)) :
  k ∉ dict_keys d -> dict_get String.eqb k d = Raise KeyError.
Proof.
  unfold dict_keys. induction d as [|[k' v] d IH]; simpl; [done|].
  rewrite not_elem_of_cons. intros [Hne Hd].
  destruct (String.eqb_spec k' k) as [->|_]; [done|]. by apply IH.
Qed.

Lemma dict_set_fresh {V} (k : string) (v : V) d :
  k ∉ dict_keys d -> dict_set String.eqb k v d = d ++ [(k, v)].
Proof.
  unfold dict_keys. induction d as [|[k' v'] d IH]; simpl; [done|].
  rewrite not_elem_of_cons. intros [Hne Hd].
  destruct (String.eqb_spec k' k) as [->|_]; [done|]. by rewrite IH.
Qed.

Lemma dict_fill_fresh {V} (bindings : list (string * V)) : forall d,
  NoDup (d.*1 ++ bindings.*1) ->
  foldl (fun d b => dict_set String.eqb b.1 b.2 d) d bindings = d ++ bindings.
Proof.
  induction bindings as [|[k v] bs IH]; intros d Hnd; simpl.
  - by rewrite app_nil_r.
  - rewrite dict_set_fresh.
    + rewrite IH; [by rewrite <- app_assoc|].
      by rewrite fmap_app, <- app_assoc.
    + apply NoDup_app in Hnd as (_ & Hnd & _). intros Hk.
      apply (Hnd k Hk). by left.
Qed.

Lemma string_eqb_sym (k k' : string) :
  String.eqb k k' = true -> String.eqb k' k = true.
Proof. by rewrite String.eqb_sym. Qed.

Lemma string_eqb_trans (a b c : string) :
  String.eqb a b = true -> String.eqb b c = true -> String.eqb a c = true.
Proof. rewrite !String.eqb_eq. congruence. Qed.

Section Reader.
Variable float : string -> result Q.

Lemma read_line_render d e a :
  token e.1 = true -> Forall (fun t => token t = true) e.2 ->
  comprehension float e.2 = Ok a ->
  read_line float d (render_line e) = Ok (dict_set String.eqb e.1 a d).
Proof.
  intros Hl Hvs Ha. unfold read_line.
  rewrite (kept_render_line e Hl Hvs), (split_space_render_line e Hl Hvs).
  cbv zeta. change (drop 1 (e.1 :: e.2)) with e.2. by rewrite Ha.
Qed.

Lemma for_each_read_render entries : forall d arrays,
  Forall (fun e => token e.1 = true /\ Forall (fun t => token t = true) e.2)
         entries ->
  Forall2 (fun e a => comprehension float e.2 = Ok a) entries arrays ->
  for_each (read_line float) d (render_line <$> entries) =
  Ok (foldl (fun d b => dict_set String.eqb b.1 b.2 d) d
            (zip (fst <$> entries) arrays)).
Proof.
  induction entries as [|e entries IH]; intros d arrays Htok Harr.
  - by apply Forall2_nil_inv_l in Harr as ->.
  - apply Forall2_cons_inv_l in Harr as (a & arrays' & Ha & Harr & ->).
    apply Forall_cons in Htok as [[Hl Hvs] Htok]. simpl.
    rewrite (read_line_render d e a Hl Hvs Ha). simpl. by apply IH.
Qed.

Lemma split_newline_render entries :
  entries <> [] ->
  Forall (fun e => token e.1 = true /\ Forall (fun t => token t = true) e.2)
         entries ->
  split_newline (render entries) = render_line <$> entries.
Proof.
  intros Hne Htok. unfold render. apply split_newline_concat.
  - by destruct entries.
  - apply Forall_fmap. eapply Forall_impl; [exact Htok|].
    intros e [Hl Hvs]. simpl. by apply contains_render_line; [..|left|].
Qed.

(** The reader on a rendered text, for arrays of any lengths. *)
Lemma read_pb_definitions_render entries arrays :
  Forall (fun e => token e.1 = true /\ Forall (fun t => token t = true) e.2)
         entries ->
  Forall2 (fun e a => comprehension float e.2 = Ok a) entries arrays ->
  "a"%string ∈ fst <$> entries ->
  read_pb_definitions float (render entries) = Ok (library_of entries arrays).
Proof.
  intros Htok Harr Ha. unfold read_pb_definitions.
  rewrite split_newline_render; [|by destruct entries; [apply elem_of_nil in Ha|]|done].
  rewrite (for_each_read_render entries [] arrays Htok Harr). simpl.
  fold (library_of entries arrays).
  destruct (dict_fill_covers String.eqb String.eqb_refl
              string_eqb_sym string_eqb_trans
              "a"%string (zip (fst <$> entries) arrays) (@nil (string * list Q)))
    as (k & Hk & Hka).
  { left. rewrite fst_zip; [done|].
    rewrite length_fmap. by rewrite (Forall2_length _ _ _ Harr). }
  apply String.eqb_eq in Hka as ->.
  destruct (dict_get_key String.eqb String.eqb_refl "a"%string
              (library_of entries arrays) Hk) as [v ->].
  done.
Qed.

Lemma read_line_keys d line d' k :
  read_line float d line = Ok d' -> k ∈ dict_keys d' ->
  k ∈ dict_keys d \/ (kept line = true /\ head (split_space line) = Some k).
Proof.
  unfold read_line. destruct (kept line); [|intros [= <-]; by left].
  destruct (comprehension float _) as [array|]; [|done]. simpl.
  unfold list_item. destruct (split_space line) as [|label items]; [done|].
  simpl. intros [= <-] [Hk| ->]%dict_keys_set; [by left|by right].
Qed.

Lemma for_each_read_keys lines : forall d d' k,
  for_each (read_line float) d lines = Ok d' -> k ∈ dict_keys d' ->
  k ∈ dict_keys d \/
  k ∈ omap (fun line => if kept line then head (split_space line) else None)
           lines.
Proof.
  induction lines as [|line lines IH]; intros d d' k; simpl.
  - intros [= <-]. by left.
  - destruct (read_line float d line) as [d1|] eqn:Hline; [|done]. simpl.
    intros Hrest Hk. destruct (IH _ _ _ Hrest Hk) as [Hk1|Hk1].
    + destruct (read_line_keys _ _ _ _ Hline Hk1) as [?|[Hkept Hhead]];
        [by left|right].
      rewrite Hkept, Hhead. by left.
    + right. destruct (kept line); [|done].
      destruct (head (split_space line)); [by right|done].
Qed.

Lemma read_line_total d line :
  well_formed_line float line -> exists d', read_line float d line = Ok d'.
Proof.
  unfold well_formed_line, read_line.
  destruct (kept line); [|by eexists]. intros [Hne Hall]; [done|].
  assert (Hc : exists array, comprehension float (drop 1 (split_space line))
                             = Ok array).
  { induction Hall as [|item items [x Hx] _ [array IH]]; [by eexists|].
    exists (x :: array). simpl. by rewrite Hx, IH. }
  destruct Hc as [array ->]. simpl.
  destruct (split_space line); [done|]. by eexists.
Qed.

Lemma for_each_read_total lines : forall d,
  Forall (well_formed_line float) lines ->
  exists d', for_each (read_line float) d lines = Ok d'.
Proof.
  induction lines as [|line lines IH]; intros d Hall; [by eexists|].
  apply Forall_cons in Hall as [Hline Hall].
  destruct (read_line_total d line Hline) as [d1 Hd1]. simpl.
  rewrite Hd1. simpl. by apply IH.
Qed.

End Reader.

(** C6, as stated, fails: a text whose two labels carry two and three
    angles is read without any failure, into a library with arrays of
    two lengths. *)
Lemma read_pb_definitions_accepts_mismatch :
  read_pb_definitions decimal_float ("a 0 0" +:+ String newline "b 1 2 3") =
  Ok [("a"%string, [0; 0]); ("b"%string, [1; 2; 3])].
Proof. by vm_compute. Qed.

(** C6, amended: a reference text whose labels (distinct, [a] among
    them) carry whatever numbers of numerals is read without failure:
    the reader returns the library that holds under every label the
    array of its line, of the length of that line, and checks no
    arity. *)
Theorem read_pb_definitions_any_arity float entries arrays :
  NoDup (fst <$> entries) ->
  Forall (fun e => token e.1 = true /\ Forall (fun t => token t = true) e.2)
         entries ->
  Forall2 (fun e a => comprehension float e.2 = Ok a) entries arrays ->
  "a"%string ∈ fst <$> entries ->
  read_pb_definitions float (render entries) = Ok (zip (fst <$> entries) arrays) /\
  Forall2 (fun e a => length a = length e.2) entries arrays.
Proof.
  intros Hnd Htok Harr Ha. split.
  - rewrite (read_pb_definitions_render float entries arrays Htok Harr Ha).
    unfold library_of. rewrite dict_fill_fresh; [done|]. simpl.
    rewrite fst_zip; [done|].
    rewrite length_fmap. by rewrite (Forall2_length _ _ _ Harr).
  - eapply Forall2_impl; [exact Harr|]. intros e a He. simpl in He.
    apply comprehension_Ok, Forall2_length in He. done.
Qed.

Lemma read_pb_definitions_any_arity_witness :
  let entries := [("a", ["0"; "0"]); ("b", ["1"; "2"; "3"])]%string in
  let arrays := [[0; 0]; [1; 2; 3]] in
  read_pb_definitions decimal_float (render entries) =
    Ok (zip (fst <$> entries) arrays) /\
  Forall2 (fun e a => length a = length e.2) entries arrays.
Proof.
  intros entries arrays.
  apply (read_pb_definitions_any_arity decimal_float entries arrays).
  - by apply (bool_decide_unpack (NoDup _)).
  - repeat constructor.
  - repeat constructor.
  - by apply (bool_decide_unpack (_ ∈ _)).
Defined.

(** C10: when no kept line of the text has the label [a], the reader
    raises; and when the kept lines are otherwise well formed (a label,
    then numerals that [float] accepts) the exception is the [KeyError]
    of the report. *)
Theorem read_pb_definitions_needs_a float pb_angles_string :
  "a"%string ∉ line_labels pb_angles_string ->
  exists e,
    read_pb_definitions float pb_angles_string = Raise e /\
    (Forall (well_formed_line float) (split_newline pb_angles_string) ->
     e = KeyError).
Proof.
  intros Ha. unfold read_pb_definitions.
  destruct (for_each (read_line float) [] (split_newline pb_angles_string))
    as [pb_angles|e] eqn:Hloop; simpl.
  - exists KeyError. split; [|done]. rewrite dict_get_absent; [done|].
    intros Hk. destruct (for_each_read_keys float _ _ _ _ Hloop Hk)
      as [Hnil|Hlab]; [by apply elem_of_nil in Hnil|]. by apply Ha.
  - exists e. split; [done|]. intros Hwf.
    destruct (for_each_read_total float _ [] Hwf) as [d' Hd'].
    congruence.
Qed.

Lemma read_pb_definitions_needs_a_witness :
  read_pb_definitions decimal_float ("b 1 2" +:+ String newline "c 3 4") =
  Raise KeyError.
Proof.
  destruct (read_pb_definitions_needs_a decimal_float
              ("b 1 2" +:+ String newline "c 3 4")) as (e & -> & He).
  - by apply (bool_decide_unpack (_ ∉ _)).
  - f_equal. apply He.
    change (split_newline _) with ["b 1 2"; "c 3 4"]%string.
    apply Forall_cons; split; [|apply Forall_cons; split; [|by apply Forall_nil]].
    + intros _. split; [by vm_compute|].
      change (drop 1 _) with ["1"; "2"]%string.
      repeat (apply Forall_cons; split; [eexists; by vm_compute|]).
      by apply Forall_nil.
    + intros _. split; [by vm_compute|].
      change (drop 1 _) with ["3"; "4"]%string.
      repeat (apply Forall_cons; split; [eexists; by vm_compute|]).
      by apply Forall_nil.
Defined.

(** ** A library that does not fit the window

    The reader checks no arity, so a library may reach [PB_assign] with
    a block that has neither eight angles nor one.  The first window
    scored against it raises the shape error of numpy, which nothing
    catches. *)

Lemma rmsda_exn ref w e : rmsda ref w = Raise e -> e = ValueError.
Proof.
  unfold rmsda, np_sub.
  destruct (length ref =? length w)%nat; [|destruct (length ref =? 1)%nat;
    [|destruct (length w =? 1)%nat]]; simpl;
    try (by intros [= <-]);
    match goal with |- context [angle_modulo_360_vect ?a] =>
      destruct a; simpl; by intros [= <-] end.
Qed.

Lemma rmsda_shape ref w :
  length w = 8%nat -> length ref <> 8%nat -> length ref <> 1%nat ->
  rmsda ref w = Raise ValueError.
Proof.
  intros Hw H8 H1. unfold rmsda, np_sub. rewrite Hw.
  destruct (Nat.eqb_spec (length ref) 8); [done|].
  destruct (Nat.eqb_spec (length ref) 1); done.
Qed.

Lemma comprehension_raise {A B} (f : A -> result B) l e0 :
  (forall x e, x ∈ l -> f x = Raise e -> e = e0) ->
  (exists x, x ∈ l /\ f x = Raise e0) ->
  comprehension f l = Raise e0.
Proof.
  induction l as [|y l IH]; intros Hall (x & Hx & Hfx).
  - by apply elem_of_nil in Hx.
  - simpl. destruct (f y) as [b|e] eqn:Hy; simpl.
    + rewrite IH; [done| |].
      * intros x' e' Hx'. apply Hall. by right.
      * apply elem_of_cons in Hx as [->|Hx]; [congruence|]. by exists x.
    + f_equal. apply (Hall y e); [by left|done].
Qed.

Lemma best_block_shape_error pb_ref w :
  NoDup (dict_keys pb_ref) -> length w = 8%nat ->
  (exists e, e ∈ pb_ref /\ length e.2 <> 8%nat /\ length e.2 <> 1%nat) ->
  best_block pb_ref w = Raise ValueError.
Proof.
  intros Hd Hw (e & He & H8 & H1). unfold best_block.
  rewrite (score_blocks_fill pb_ref w Hd).
  rewrite (comprehension_raise _ pb_ref ValueError); [done| |].
  - intros [l r] e' _. simpl. destruct (rmsda r w) eqn:Hr; [done|].
    simpl. intros [= <-]. by apply rmsda_exn in Hr.
  - exists e. split; [done|]. by rewrite (rmsda_shape e.2 w Hw H8 H1).
Qed.

Lemma PB_assign_shape_error pb_ref dihedrals :
  NoDup (dict_keys pb_ref) ->
  (exists e, e ∈ pb_ref /\ length e.2 <> 8%nat /\ length e.2 <> 1%nat) ->
  (exists i w, assembled dihedrals i w) ->
  PB_assign pb_ref dihedrals = Raise ValueError.
Proof.
  intros Hd Hbad (i & w & Hw). unfold PB_assign.
  assert (Hi : i ∈ sorted dihedrals).
  { apply sorted_elem. unfold assembled, required in Hw.
    do 3 apply Forall2_cons_inv_l in Hw as (? & ? & _ & Hw & ->).
    apply Forall2_cons_inv_l in Hw as (? & ? & (t & Ht & _) & _ & ->).
    by exists t. }
  revert Hi. generalize (sorted dihedrals) as l. generalize ""%string as acc.
  intros acc l. revert acc.
  induction l as [|j l IH]; intros acc Hi; [by apply elem_of_nil in Hi|].
  simpl. destruct (window dihedrals j) as [wj|] eqn:Hj.
  - assert (Hstep : assign_residue pb_ref dihedrals acc j = Raise ValueError).
    { unfold assign_residue. rewrite Hj.
      rewrite (best_block_shape_error pb_ref wj Hd); [done| |done].
      by apply (window_length dihedrals j). }
    by rewrite Hstep.
  - apply window_unassembled in Hj as Hun.
    rewrite (assign_residue_unassembled pb_ref dihedrals acc j Hun). simpl.
    apply IH. apply elem_of_cons in Hi as [->|Hi]; [|done].
    apply window_assembled in Hw. congruence.
Qed.

(** ** Evaluations

    The definitions run; some inputs at the edges of the statements
    above. *)

Example angle_modulo_360_wraps :
  angle_modulo_360 190 == -170 /\ angle_modulo_360 (-190) == 170 /\
  angle_modulo_360 180 = 180 /\ angle_modulo_360 360 == 0.
Proof. by vm_compute. Qed.

(** Blank lines and lines with a comment mark are skipped; a label met
    twice keeps its place and takes the later array. *)
Example read_pb_definitions_skips :
  read_pb_definitions decimal_float
    ("# blocks" +:+ String newline
     ("a 41.14 -75.5" +:+ String newline
      ("" +:+ String newline
       ("b 1 # one" +:+ String newline
        ("c 2 3" +:+ String newline "a 0 -1.5"))))) =
  Ok [("a"%string, [0; -3 # 2]); ("c"%string, [2; 3])].
Proof. by vm_compute. Qed.

(** A line of blanks is kept and has no first item; a token that is
    not a numeral is refused. *)
Example read_pb_definitions_raises :
  read_pb_definitions decimal_float ("a 1" +:+ String newline "  ") =
    Raise IndexError /\
  read_pb_definitions decimal_float "a 1 x" = Raise ValueError /\
  read_pb_definitions decimal_float "" = Raise KeyError.
Proof. by vm_compute. Qed.

(** Libraries outside the data model: three angles per block, or no
    block at all, raise at the first assembled window; a block of one
    angle is stretched over the window. *)
Example PB_assign_off_model :
  PB_assign [("a"%string, [0; 0; 0])] (five_residues 0 0) = Raise ValueError /\
  PB_assign [] (five_residues 0 0) = Raise ValueError /\
  PB_assign [("a"%string, [5])] (five_residues 0 0) = Ok "ZZaZZ"%string.
Proof. by vm_compute. Qed.

(** A gap in the numbering and a null torsion both give the sentinel. *)
Example PB_assign_gaps :
  PB_assign library_ab (delete 2%Z (five_residues 0 0)) = Ok "ZZZZ"%string /\
  PB_assign library_ab
    (<[4%Z := Torsion None (Some 0)]> (five_residues 0 0)) = Ok "ZZZZZ"%string /\
  PB_assign library_ab
    (<[6%Z := Torsion (Some 9) (Some 9)]>
       (<[7%Z := Torsion (Some 9) (Some 9)]> (five_residues 0 0))) =
    Ok "ZZaaaZZ"%string.
Proof. by vm_compute. Qed.

(** ** The wrap as a circular difference *)

(** X1: the wrap is odd: the wrap of the opposite angle is the opposite
    of the wrap, for every angle (the two ends -180 and 180 are both
    kept). *)
Theorem angle_modulo_360_odd angle :
  angle_modulo_360 (- angle) == - angle_modulo_360 angle.
Proof.
  destruct (angle_modulo_360_cases angle) as [[H ->]|[[H ->]|[H ->]]];
    destruct (angle_modulo_360_cases (- angle)) as [[H' ->]|[[H' ->]|[H' ->]]];
    lra.
Qed.

Lemma inject_Z_le_cases (k j : Z) :
  (inject_Z k <= inject_Z j - 1) \/ k = j \/ (inject_Z j + 1 <= inject_Z k).
Proof.
  destruct (Z.lt_trichotomy k j) as [Hlt|[->|Hgt]]; [left|by right; left|right; right].
  - assert (Hle : (k <= j - 1)%Z) by lia. rewrite Zle_Qle in Hle.
    unfold Z.sub in Hle. rewrite inject_Z_plus in Hle. exact Hle.
  - assert (Hle : (j + 1 <= k)%Z) by lia. rewrite Zle_Qle in Hle.
    rewrite inject_Z_plus in Hle. exact Hle.
Qed.

(** X2: for a difference between -540 and 540 (a turn and a half), the
    wrapped value is the representative of smallest magnitude: no
    shift of the difference by whole turns is closer to zero. *)
Theorem angle_modulo_360_nearest d (k : Z) :
  -540 <= d <= 540 ->
  Qabs (angle_modulo_360 d) <= Qabs (d + inject_Z k * 360).
Proof.
  intros Hd.
  pose proof (proj1 (angle_modulo_360_bounds d) Hd) as Hr.
  apply Qabs_Qle_condition.
  destruct (angle_modulo_360_cases d) as [[H Heq]|[[H Heq]|[H Heq]]];
    rewrite Heq in *.
  - destruct (inject_Z_le_cases k (-1)) as [Hk|[->|Hk]];
      change (inject_Z (-1)) with (-1) in *;
      apply (Qabs_case (d + _ * 360)); intros Hs; lra.
  - destruct (inject_Z_le_cases k 1) as [Hk|[->|Hk]];
      change (inject_Z 1) with 1 in *;
      apply (Qabs_case (d + _ * 360)); intros Hs; lra.
  - destruct (inject_Z_le_cases k 0) as [Hk|[->|Hk]];
      change (inject_Z 0) with 0 in *;
      apply (Qabs_case (d + _ * 360)); intros Hs; lra.
Qed.

Lemma angle_modulo_360_nearest_witness :
  Qabs (angle_modulo_360 350) <= Qabs (350 + inject_Z 2 * 360).
Proof. apply (angle_modulo_360_nearest 350 2). lra. Defined.

(** ** The score of a block: shapes, symmetry, zero *)

Lemma angle_modulo_360_Qeq a b :
  a == b -> angle_modulo_360 a == angle_modulo_360 b.
Proof.
  intros Hab.
  destruct (angle_modulo_360_cases a) as [[H ->]|[[H ->]|[H ->]]];
    destruct (angle_modulo_360_cases b) as [[H' ->]|[[H' ->]|[H' ->]]];
    lra.
Qed.

(** X3: the score of a block against a window exists exactly when the
    two arrays fit under numpy's broadcasting (equal lengths, or one of
    them of length one) and neither is empty; in every other case what
    is raised is a [ValueError]. *)
Theorem rmsda_shapes ref w :
  ((exists s, rmsda ref w = Ok s) <->
   (length ref = length w \/ length ref = 1%nat \/ length w = 1%nat) /\
   ref <> [] /\ w <> []) /\
  (forall e, rmsda ref w = Raise e -> e = ValueError).
Proof.
  split; [|intros e; apply rmsda_exn].
  unfold rmsda, np_sub.
  destruct (Nat.eqb_spec (length ref) (length w)) as [Heq|Hne].
  { destruct ref as [|r ref], w as [|x w]; simpl in *; try done.
    - split; [by intros [s ?]|]. by intros (_ & ? & _).
    - split; [|by eexists]. intros _. split; [by left|done]. }
  destruct (Nat.eqb_spec (length ref) 1) as [H1|H1].
  { destruct w as [|x w]; simpl.
    - split; [by intros [s ?]|]. by intros (_ & _ & ?).
    - split; [|by eexists]. intros _. split; [by right; left|].
      split; [by destruct ref|done]. }
  destruct (Nat.eqb_spec (length w) 1) as [H2|H2].
  { destruct ref as [|r ref]; simpl.
    - split; [by intros [s ?]|]. by intros (_ & ? & _).
    - split; [|by eexists]. intros _. split; [by right; right|].
      split; [done|by destruct w]. }
  simpl. split; [by intros [s ?]|]. intros ([?|[?|?]] & _); done.
Qed.

(** X4: a block of a single angle counts as the block that repeats
    this angle along the window. *)
Theorem rmsda_broadcast r w :
  rmsda [r] w = rmsda (replicate (length w) r) w.
Proof.
  assert (Hmap : forall l : list Q,
            (fun y => r - y) <$> l = zip_with Qminus (replicate (length l) r) l).
  { induction l as [|x l IH]; simpl; [done|]. f_equal. apply IH. }
  assert (Hsub : np_sub [r] w = np_sub (replicate (length w) r) w).
  { unfold np_sub. rewrite length_replicate, Nat.eqb_refl, <- Hmap.
    destruct w as [|x [|y w]]; simpl; [done|done|]. by rewrite Nat.eqb_refl. }
  unfold rmsda. by rewrite Hsub.
Qed.

Lemma np_sum_square_opp l1 l2 :
  Forall2 (fun a b => a == - b) l1 l2 ->
  np_sum (np_square (angle_modulo_360 <$> l1)) ==
  np_sum (np_square (angle_modulo_360 <$> l2)).
Proof.
  induction 1 as [|a b l1 l2 Hab _ IH]; simpl; [done|].
  rewrite IH. apply Qplus_inj_r.
  rewrite (angle_modulo_360_Qeq a (- b) Hab), angle_modulo_360_odd.
  simpl. ring.
Qed.

Lemma np_sub_swap a b d :
  np_sub a b = Ok d ->
  exists d', np_sub b a = Ok d' /\ Forall2 (fun x y => x == - y) d d'.
Proof.
  unfold np_sub. rewrite (Nat.eqb_sym (length b) (length a)).
  destruct (Nat.eqb_spec (length a) (length b)) as [Heq|Hne].
  { intros [= <-]. eexists. split; [done|].
    clear Heq. revert b. induction a as [|x a IH]; intros [|y b]; simpl;
      try constructor; [ring|apply IH]. }
  destruct (Nat.eqb_spec (length a) 1) as [H1|H1].
  { intros [= <-]. destruct (Nat.eqb_spec (length b) 1) as [H2|_]; [congruence|].
    eexists. split; [done|].
    clear. induction b as [|y b IH]; simpl; constructor; [ring|apply IH]. }
  destruct (Nat.eqb_spec (length b) 1) as [H2|H2]; [|done].
  intros [= <-]. eexists. split; [done|].
  clear. induction a as [|x a IH]; simpl; constructor; [ring|apply IH].
Qed.

(** X5: the score is symmetric: when the score of a block against a
    window exists, the score of the window against the block exists
    too and is the same number. *)
Theorem rmsda_symmetric ref w s :
  rmsda ref w = Ok s -> exists s', rmsda w ref = Ok s' /\ s' == s.
Proof.
  unfold rmsda. destruct (np_sub ref w) as [d|] eqn:Hd; [|done]. simpl.
  destruct (np_sub_swap ref w d Hd) as (d' & -> & Hdd'). simpl.
  destruct d as [|x d]; [done|]. intros [= <-].
  apply Forall2_cons_inv_l in Hdd' as (y & d'' & Hxy & Hdd' & ->).
  eexists. split; [done|]. symmetry.
  apply (np_sum_square_opp (x :: d) (y :: d'')). by constructor.
Qed.

Lemma rmsda_symmetric_witness :
  exists s', rmsda [10; -170] [0; 170] = Ok s' /\ s' == 500.
Proof. apply (rmsda_symmetric [0; 170] [10; -170] 500). by vm_compute. Defined.

Lemma angle_modulo_360_zero d :
  angle_modulo_360 d == 0 <-> d == 0 \/ d == 360 \/ d == -360.
Proof.
  destruct (angle_modulo_360_cases d) as [[H ->]|[[H ->]|[H ->]]];
    split; intros; lra.
Qed.

Lemma deviation_zero ref w :
  length ref = length w ->
  (deviation ref w == 0 <->
   Forall2 (fun r x => r - x == 0 \/ r - x == 360 \/ r - x == -360) ref w).
Proof.
  revert w. induction ref as [|r ref IH]; intros [|x w] Hlen; simpl in *;
    try done.
  injection Hlen as Hlen. specialize (IH w Hlen).
  pose proof (Qsqr_nonneg (angle_modulo_360 (r - x))) as Hsq. simpl in Hsq.
  pose proof (deviation_nonneg ref w) as Hdev.
  rewrite Forall2_cons, <- IH, <- angle_modulo_360_zero. split.
  - intros Hsum. split; [|lra].
    assert (Hz : angle_modulo_360 (r - x) * angle_modulo_360 (r - x) == 0) by lra.
    by apply Qmult_integral in Hz as [?|?].
  - intros [Hz Hd]. rewrite Hz, Hd. ring.
Qed.

(** X6: for a block and a window of the same length, not empty, the
    score is zero exactly when every angle of the block differs from
    the angle of the window by nothing or by one full turn. *)
Theorem rmsda_zero ref w :
  length ref = length w -> w <> [] ->
  exists s, rmsda ref w = Ok s /\
    (s == 0 <->
     Forall2 (fun r x => r - x == 0 \/ r - x == 360 \/ r - x == -360) ref w).
Proof.
  intros Hlen Hw. exists (deviation ref w).
  split; [by apply rmsda_deviation|by apply deviation_zero].
Qed.

Lemma rmsda_zero_witness :
  exists s, rmsda [180; -90] [-180; -90] = Ok s /\
    (s == 0 <->
     Forall2 (fun r x => r - x == 0 \/ r - x == 360 \/ r - x == -360)
             [180; -90] [-180; -90]).
Proof. by apply (rmsda_zero [180; -90] [-180; -90]). Defined.

(** ** The choice of the block: when it exists, and what it ignores *)

Lemma comprehension_returns {A B} (f : A -> result B) l :
  (exists ys, comprehension f l = Ok ys) <-> Forall (fun x => exists y, f x = Ok y) l.
Proof.
  induction l as [|x l IH]; simpl.
  - split; [constructor|by eexists].
  - rewrite Forall_cons, <- IH. destruct (f x) as [y|e]; simpl.
    + destruct (comprehension f l) as [ys|e]; simpl.
      * split; [|by eexists]. intros _. split; by eexists.
      * split; [by intros [? ?]|]. by intros [_ [? ?]].
    + split; [by intros [? ?]|]. by intros [[? ?] _].
Qed.

Lemma best_block_exn pb_ref angles e :
  NoDup (dict_keys pb_ref) -> best_block pb_ref angles = Raise e -> e = ValueError.
Proof.
  intros Hd. unfold best_block. rewrite (score_blocks_fill pb_ref angles Hd).
  destruct (comprehension _ pb_ref) as [scores|e'] eqn:Hc; simpl.
  - destruct (py_min _) as [m|e'] eqn:Hm; simpl.
    + apply py_min_Ok in Hm as [Hin _].
      destruct (dict_get_key Qeq_bool Qeq_bool_refl m _ Hin) as [v Hv].
      rewrite Hv. intros [=].
    + intros [= <-]. unfold py_min in Hm. by case_match; simplify_eq.
  - intros [= <-]. revert e' Hc. induction pb_ref as [|[l r] rest IH];
      intros e' Hc; simpl in *; [done|].
    destruct (rmsda r angles) as [s|e''] eqn:Hs; simpl in *.
    + destruct (comprehension _ rest) as [ys|e3] eqn:Hrest; simpl in *; [done|].
      injection Hc as <-. apply (IH (NoDup_cons_1_2 _ _ Hd) e3 eq_refl).
    + injection Hc as <-. by apply rmsda_exn in Hs.
Qed.

Lemma best_block_returns pb_ref angles :
  NoDup (dict_keys pb_ref) ->
  (exists lbl, best_block pb_ref angles = Ok lbl) <->
  pb_ref <> [] /\ Forall (fun e => exists s, rmsda e.2 angles = Ok s) pb_ref.
Proof.
  intros Hd. split.
  - intros [lbl Hlbl].
    apply (best_block_inv pb_ref angles Hd) in Hlbl
      as (l1 & ref & l2 & m & -> & _ & Hall & _).
    split; [by destruct l1|]. eapply Forall_impl; [exact Hall|].
    intros e (m' & Hm' & _). by exists m'.
  - intros [Hne Hall]. unfold best_block.
    rewrite (score_blocks_fill pb_ref angles Hd).
    destruct (proj2 (comprehension_returns
      (fun e => r ← rmsda e.2 angles; Ok (r, e.1)) pb_ref)) as [scores Hc].
    { eapply Forall_impl; [exact Hall|]. intros e [s Hs]. simpl.
      rewrite Hs. by eexists. }
    rewrite Hc. simpl.
    assert (Hs : scores <> []).
    { apply comprehension_Ok, Forall2_length in Hc. by destruct pb_ref, scores. }
    destruct scores as [|[s l] scores]; [done|].
    destruct (dict_fill_covers Qeq_bool Qeq_bool_refl Qeq_bool_sym Qeq_bool_trans
                s ((s, l) :: scores) []) as (k & Hk & _); [left; by left|].
    destruct (py_min_total (dict_keys (foldl
       (fun d b => dict_set Qeq_bool b.1 b.2 d) [] ((s, l) :: scores)))) as [m Hm].
    { intros Hnil. rewrite Hnil in Hk. by apply elem_of_nil in Hk. }
    rewrite Hm. simpl. apply py_min_Ok in Hm as [Hin _].
    by apply dict_get_key; [apply Qeq_bool_refl|].
Qed.

(** X7: the choice of a block for a window returns exactly when the
    library is not empty and every block has a score against the
    window; in every other case a [ValueError] is raised. *)
Theorem best_block_failure pb_ref angles :
  NoDup (dict_keys pb_ref) ->
  ((exists lbl, best_block pb_ref angles = Ok lbl) <->
   pb_ref <> [] /\ Forall (fun e => exists s, rmsda e.2 angles = Ok s) pb_ref) /\
  (forall e, best_block pb_ref angles = Raise e -> e = ValueError).
Proof.
  intros Hd. split; [by apply best_block_returns|].
  intros e. by apply best_block_exn.
Qed.

Lemma best_block_failure_witness :
  ((exists lbl, best_block library_ab [0; 0; 0] = Ok lbl) <->
   library_ab <> [] /\
   Forall (fun e => exists s, rmsda e.2 [0; 0; 0] = Ok s) library_ab) /\
  (forall e, best_block library_ab [0; 0; 0] = Raise e -> e = ValueError).
Proof.
  apply (best_block_failure library_ab [0; 0; 0]).
  by apply (bool_decide_unpack (NoDup _)).
Defined.

(** X8: when no two blocks of the library have the same score against
    a window, the order of the blocks in the library does not matter:
    every reordering of the library leads to the same choice, or to
    the same failure. *)
Theorem best_block_any_order pb_ref pb_ref' angles :
  pb_ref ≡ₚ pb_ref' -> NoDup (dict_keys pb_ref) ->
  (forall e e' s s', e ∈ pb_ref -> e' ∈ pb_ref ->
     rmsda e.2 angles = Ok s -> rmsda e'.2 angles = Ok s' -> s == s' -> e = e') ->
  best_block pb_ref angles = best_block pb_ref' angles.
Proof.
  intros Hperm Hd Hties.
  assert (Hd' : NoDup (dict_keys pb_ref')).
  { unfold dict_keys in *. by rewrite <- Hperm. }
  assert (Hsame : (exists lbl, best_block pb_ref angles = Ok lbl) <->
                  (exists lbl, best_block pb_ref' angles = Ok lbl)).
  { rewrite (best_block_returns pb_ref angles Hd),
            (best_block_returns pb_ref' angles Hd').
    split; intros [Hne Hall]; split.
    - intros ->. by apply Permutation_nil_r in Hperm.
    - by rewrite <- Hperm.
    - intros ->. by apply Permutation_nil_l in Hperm.
    - by rewrite Hperm. }
  destruct (best_block pb_ref angles) as [lbl|e] eqn:Hb;
    destruct (best_block pb_ref' angles) as [lbl'|e'] eqn:Hb'.
  - f_equal.
    apply (best_block_inv pb_ref angles Hd) in Hb
      as (l1 & ref & l2 & m & Heq & Hm & Hmin & _).
    apply (best_block_inv pb_ref' angles Hd') in Hb'
      as (l1' & ref' & l2' & m' & Heq' & Hm' & Hmin' & _).
    assert (Hin : (lbl, ref) ∈ pb_ref) by (rewrite Heq, elem_of_app; right; by left).
    assert (Hin' : (lbl', ref') ∈ pb_ref).
    { rewrite Hperm, Heq', elem_of_app. right. by left. }
    rewrite Forall_forall in Hmin, Hmin'.
    destruct (Hmin _ Hin') as (s & Hs & Hle). simpl in Hs.
    rewrite Hm' in Hs. injection Hs as <-.
    destruct (Hmin' (lbl, ref)) as (s & Hs & Hle'); [by rewrite <- Hperm|].
    simpl in Hs. rewrite Hm in Hs. injection Hs as <-.
    assert (Heq2 : (lbl, ref) = (lbl', ref'))
      by (apply (Hties _ _ m m' Hin Hin' Hm Hm'); lra).
    by injection Heq2.
  - destruct (proj1 Hsame) as [? ?]; [by eexists|done].
  - destruct (proj2 Hsame) as [? ?]; [by eexists|done].
  - apply (best_block_exn _ _ _ Hd) in Hb as ->.
    by apply (best_block_exn _ _ _ Hd') in Hb' as ->.
Qed.

Lemma best_block_any_order_witness :
  best_block library_ab [0; 0; 0; 0; 0; 0; 0; 0] =
  best_block (reverse library_ab) [0; 0; 0; 0; 0; 0; 0; 0].
Proof.
  apply (best_block_any_order library_ab (reverse library_ab)).
  - by rewrite reverse_Permutation.
  - by apply (bool_decide_unpack (NoDup _)).
  - intros e e' s s'. unfold library_ab. rewrite !elem_of_cons.
    intros [->|[->|?%elem_of_nil]] [->|[->|?%elem_of_nil]]; try done;
      vm_compute; intros [= <-] [= <-]; done.
Defined.

(** ** The sequence: its pieces, its ends *)

Lemma for_each_labels_inv pb_ref dihedrals l : forall acc pb_seq,
  for_each (assign_residue pb_ref dihedrals) acc l = Ok pb_seq ->
  exists labels,
    Forall2 (fun i lbl => assign_residue pb_ref dihedrals "" i = Ok lbl) l labels /\
    pb_seq = acc +:+ join_labels labels.
Proof.
  induction l as [|i l IH]; intros acc pb_seq; simpl.
  - intros [= <-]. exists []. split; [constructor|]. simpl.
    by rewrite append_empty_r.
  - rewrite assign_residue_acc.
    destruct (assign_residue pb_ref dihedrals "" i) as [lbl|] eqn:Hi; [|done].
    simpl. intros (labels & Hall & ->)%IH. exists (lbl :: labels).
    split; [by constructor|]. simpl. by rewrite append_assoc.
Qed.

(** X9: whenever the run returns, with any library that is a dict, its
    sequence is made of one piece per residue, in ascending order of
    the residues: the piece is ["Z"] for a residue whose window cannot
    be assembled, and otherwise a label of the library, the one chosen
    for the window.  (With labels of several characters the sequence is
    longer than the number of residues.) *)
Theorem PB_assign_pieces pb_ref dihedrals pb_seq :
  NoDup (dict_keys pb_ref) ->
  PB_assign pb_ref dihedrals = Ok pb_seq ->
  exists labels,
    pb_seq = join_labels labels /\
    Forall2 (fun i lbl =>
               (unassembled dihedrals i /\ lbl = "Z"%string) \/
               (exists w, assembled dihedrals i w /\
                          best_block pb_ref w = Ok lbl /\
                          lbl ∈ dict_keys pb_ref))
            (sorted dihedrals) labels.
Proof.
  intros Hd (labels & Hall & ->)%for_each_labels_inv. exists labels.
  split; [done|]. eapply Forall2_impl; [exact Hall|].
  intros i lbl. unfold assign_residue.
  destruct (window dihedrals i) as [w|] eqn:Hw.
  - destruct (best_block pb_ref w) as [lbl'|] eqn:Hb; [|done]. simpl.
    intros [= <-]. right. exists w. split; [by apply window_assembled|].
    split; [done|].
    apply (best_block_inv pb_ref w Hd) in Hb as (l1 & ref & l2 & m & -> & _).
    unfold dict_keys. rewrite fmap_app, elem_of_app. right. by left.
  - intros [= <-]. left. split; [by apply window_unassembled|done].
Qed.

Lemma PB_assign_pieces_witness :
  exists labels,
    "ZZabZZ"%string = join_labels labels /\
    Forall2 (fun i lbl =>
               (unassembled (five_residues 0 0) i /\ lbl = "Z"%string) \/
               (exists w, assembled (five_residues 0 0) i w /\
                          best_block [("ab"%string, [0; 0; 0; 0; 0; 0; 0; 0])] w
                            = Ok lbl /\
                          lbl ∈ dict_keys [("ab"%string, [0; 0; 0; 0; 0; 0; 0; 0])]))
            (sorted (five_residues 0 0)) labels.
Proof.
  apply (PB_assign_pieces [("ab"%string, [0; 0; 0; 0; 0; 0; 0; 0])]
           (five_residues 0 0) "ZZabZZ").
  - by apply (bool_decide_unpack (NoDup _)).
  - by vm_compute.
Defined.

Lemma StronglySorted_lookup_lt (l : list Z) : forall a b x y,
  StronglySorted Z.lt l -> l !! a = Some x -> l !! b = Some y ->
  (a < b)%nat -> (x < y)%Z.
Proof.
  induction l as [|z l IH]; intros a b x y Hs Ha Hb Hab; [done|].
  apply StronglySorted_inv in Hs as [Hs Hz].
  destruct b as [|b]; [lia|]. simpl in Hb. destruct a as [|a]; simpl in Ha.
  - injection Ha as ->. rewrite Forall_forall in Hz. apply Hz.
    by eapply list_elem_of_lookup_2.
  - apply (IH a b); [done..|lia].
Qed.

Lemma assembled_neighbours dihedrals i w :
  assembled dihedrals i w ->
  is_Some (dihedrals !! (i - 2)%Z) /\ is_Some (dihedrals !! (i - 1)%Z) /\
  is_Some (dihedrals !! (i + 1)%Z) /\ is_Some (dihedrals !! (i + 2)%Z).
Proof.
  unfold assembled, required. intros H.
  apply Forall2_cons_inv_l in H as (? & ? & (t1 & Ht1 & _) & H & ->).
  apply Forall2_cons_inv_l in H as (? & ? & (t2 & Ht2 & _) & H & ->).
  do 3 apply Forall2_cons_inv_l in H as (? & ? & _ & H & ->).
  apply Forall2_cons_inv_l in H as (? & ? & (t3 & Ht3 & _) & H & ->).
  apply Forall2_cons_inv_l in H as (? & ? & _ & H & ->).
  apply Forall2_cons_inv_l in H as (? & ? & (t4 & Ht4 & _) & H & ->).
  simpl in *. by repeat split; eexists.
Qed.

(** The two first and the two last residues have no window. *)
Lemma ends_unassembled dihedrals n i :
  sorted dihedrals !! n = Some i ->
  (n < 2)%nat \/ (size dihedrals <= n + 2)%nat ->
  unassembled dihedrals i.
Proof.
  intros Hn Hends. apply window_unassembled.
  destruct (window dihedrals i) as [w|] eqn:Hw; [exfalso|done].
  apply window_assembled, assembled_neighbours in Hw as (H2 & H1 & H3 & H4).
  apply sorted_elem, list_elem_of_lookup in H1 as [m1 Hm1].
  apply sorted_elem, list_elem_of_lookup in H2 as [m2 Hm2].
  apply sorted_elem, list_elem_of_lookup in H3 as [m3 Hm3].
  apply sorted_elem, list_elem_of_lookup in H4 as [m4 Hm4].
  pose proof (sorted_ascending dihedrals) as Hs.
  pose proof (StronglySorted_lookup_lt _ n m1 _ _ Hs Hn Hm1).
  pose proof (StronglySorted_lookup_lt _ n m2 _ _ Hs Hn Hm2).
  pose proof (StronglySorted_lookup_lt _ m1 m2 _ _ Hs Hm1 Hm2).
  pose proof (StronglySorted_lookup_lt _ m3 n _ _ Hs Hm3 Hn).
  pose proof (StronglySorted_lookup_lt _ m4 n _ _ Hs Hm4 Hn).
  pose proof (StronglySorted_lookup_lt _ m4 m3 _ _ Hs Hm4 Hm3).
  assert (n <> m1) by (intros ->; rewrite Hn in Hm1; injection Hm1; lia).
  assert (m1 <> m2) by (intros ->; rewrite Hm1 in Hm2; injection Hm2; lia).
  assert (n <> m3) by (intros ->; rewrite Hn in Hm3; injection Hm3; lia).
  assert (m3 <> m4) by (intros ->; rewrite Hm3 in Hm4; injection Hm4; lia).
  apply lookup_lt_Some in Hm3, Hm4. rewrite sorted_length in Hm3, Hm4.
  lia.
Qed.

(** X10: the two lowest and the two highest residues of a torsion map
    never have a window, whatever their torsions, so each of them
    appends ["Z"], with any library. *)
Theorem PB_assign_ends pb_ref dihedrals n i pb_seq :
  sorted dihedrals !! n = Some i ->
  (n < 2)%nat \/ (size dihedrals <= n + 2)%nat ->
  unassembled dihedrals i /\
  assign_residue pb_ref dihedrals pb_seq i = Ok (pb_seq +:+ "Z").
Proof.
  intros Hn Hends.
  pose proof (ends_unassembled dihedrals n i Hn Hends) as Hun.
  split; [done|]. by apply assign_residue_unassembled.
Qed.

Lemma PB_assign_ends_witness :
  unassembled (five_residues 0 0) 4 /\
  assign_residue library_ab (five_residues 0 0) "ZZa" 4 = Ok "ZZaZ"%string.
Proof.
  apply (PB_assign_ends library_ab (five_residues 0 0) 3 4 "ZZa").
  - by vm_compute.
  - right. by vm_compute.
Defined.

(** X11: a torsion map of fewer than five residues gives a sequence of
    ["Z"] only, one per residue, with any library at all: an empty or
    ill-shaped library raises nothing then. *)
Theorem PB_assign_few_residues pb_ref dihedrals :
  (size dihedrals < 5)%nat ->
  PB_assign pb_ref dihedrals =
  Ok (join_labels (replicate (size dihedrals) "Z"%string)).
Proof.
  intros Hsize. unfold PB_assign.
  rewrite (for_each_labels pb_ref dihedrals (sorted dihedrals) ""
             (replicate (size dihedrals) "Z"%string)); [done|].
  apply Forall2_same_length_lookup_2.
  { by rewrite length_replicate, sorted_length. }
  intros n i lbl Hn [-> _]%lookup_replicate.
  apply assign_residue_unassembled, (ends_unassembled dihedrals n); [done|].
  apply lookup_lt_Some in Hn. rewrite sorted_length in Hn. lia.
Qed.

Lemma PB_assign_few_residues_witness :
  PB_assign [] (delete 3%Z (five_residues 0 0)) = Ok "ZZZZ"%string.
Proof.
  rewrite (PB_assign_few_residues [] (delete 3%Z (five_residues 0 0))).
  - by vm_compute.
  - vm_compute. lia.
Defined.

(** X12: what a residue appends depends on the torsion map only
    through the eight torsions of its window: two maps that agree on
    them give the same piece, whatever else differs (other residues,
    phi of residue i-2, psi of residue i+2). *)
Theorem assign_residue_local pb_ref dihedrals dihedrals' pb_seq i :
  (forall jf, jf ∈ required i ->
     jf.2 <$> (dihedrals !! jf.1) = jf.2 <$> (dihedrals' !! jf.1)) ->
  assign_residue pb_ref dihedrals pb_seq i =
  assign_residue pb_ref dihedrals' pb_seq i.
Proof.
  intros Hagree.
  assert (Hmove : forall d d' w,
    (forall jf, jf ∈ required i -> jf.2 <$> (d !! jf.1) = jf.2 <$> (d' !! jf.1)) ->
    assembled d i w -> assembled d' i w).
  { intros d d' w Hag. unfold assembled.
    assert (Hsub : forall jf, jf ∈ required i -> jf ∈ required i) by done.
    revert Hsub. generalize (required i) at 1 3 4 as l. intros l. revert w.
    induction l as [|jf l IH]; intros w Hsub Hall.
    - apply Forall2_nil_inv_l in Hall as ->. constructor.
    - apply Forall2_cons_inv_l in Hall as (x & w' & (t & Ht & Hx) & Hall & ->).
      constructor; [|apply IH; [intros ? ?; apply Hsub; by right|done]].
      specialize (Hag jf (Hsub jf ltac:(by left))). rewrite Ht in Hag.
      destruct (d' !! jf.1) as [t'|]; [|done]. simpl in Hag.
      exists t'. split; [done|]. congruence. }
  assert (Hw : window dihedrals i = window dihedrals' i).
  { destruct (window dihedrals i) as [w|] eqn:H1.
    - symmetry. apply window_assembled, (Hmove dihedrals); [done|].
      by apply window_assembled.
    - destruct (window dihedrals' i) as [w'|] eqn:H2; [|done].
      apply window_assembled, (Hmove dihedrals' dihedrals) in H2;
        [|intros jf Hjf; symmetry; by apply Hagree].
      apply window_assembled in H2. congruence. }
  unfold assign_residue. by rewrite Hw.
Qed.

Lemma assign_residue_local_witness :
  assign_residue library_ab (five_residues 0 0) "ZZ" 3 =
  assign_residue library_ab
    (<[8%Z := Torsion None None]> (five_residues 77 (-33))) "ZZ" 3.
Proof.
  apply (assign_residue_local library_ab (five_residues 0 0)).
  intros jf. unfold required. rewrite !elem_of_cons.
  intros [->|[->|[->|[->|[->|[->|[->|[->|?%elem_of_nil]]]]]]]]; try done;
    by vm_compute.
Defined.

(** ** The reader: what a loaded library is *)

Lemma dict_keys_set_string {V} (k : string) (v : V) d :
  dict_keys (dict_set String.eqb k v d) =
  if bool_decide (k ∈ dict_keys d) then dict_keys d else dict_keys d ++ [k].
Proof.
  unfold dict_keys. induction d as [|[k' v'] d IH]; [done|].
  cbn [dict_set]. destruct (String.eqb_spec k' k) as [->|Hne].
  - rewrite !fmap_cons. cbn [fst].
    rewrite bool_decide_eq_true_2; [done|by left].
  - rewrite !fmap_cons, IH. cbn [fst].
    destruct (decide (k ∈ d.*1)) as [Hin|Hin].
    + rewrite !bool_decide_eq_true_2; [done|by right|done].
    + rewrite !bool_decide_eq_false_2; [done| |done].
      rewrite not_elem_of_cons. split; [congruence|done].
Qed.

Lemma first_occurrences_fold (l : list string) : forall acc,
  NoDup acc ->
  let r := foldl (fun acc k => if bool_decide (k ∈ acc) then acc else acc ++ [k])
                 acc l in
  NoDup r /\ forall k, k ∈ r <-> k ∈ acc \/ k ∈ l.
Proof.
  induction l as [|x l IH]; intros acc Hacc; simpl.
  - split; [done|]. intros k. rewrite elem_of_nil. tauto.
  - destruct (decide (x ∈ acc)) as [Hin|Hin].
    + rewrite bool_decide_eq_true_2 by done.
      destruct (IH acc Hacc) as [Hnd Hel]. split; [done|].
      intros k. rewrite Hel, elem_of_cons. split; [tauto|].
      intros [?|[->|?]]; tauto.
    + rewrite bool_decide_eq_false_2 by done.
      destruct (IH (acc ++ [x])) as [Hnd Hel].
      { apply NoDup_app. split; [done|]. split; [|apply NoDup_singleton].
        intros y Hy ->%list_elem_of_singleton. done. }
      split; [done|]. intros k.
      rewrite Hel, elem_of_app, list_elem_of_singleton, elem_of_cons. tauto.
Qed.

Section Loaded.
Variable float : string -> result Q.

Lemma read_line_label d line d' :
  read_line float d line = Ok d' ->
  dict_keys d' =
  match (if kept line then head (split_space line) else None) with
  | Some k => if bool_decide (k ∈ dict_keys d) then dict_keys d
              else dict_keys d ++ [k]
  | None => dict_keys d
  end.
Proof.
  unfold read_line. destruct (kept line); [|by intros [= <-]].
  destruct (comprehension float _) as [array|]; [|done]. simpl.
  unfold list_item. destruct (split_space line) as [|label items]; [done|].
  simpl. intros [= <-]. apply dict_keys_set_string.
Qed.

Lemma for_each_read_labels lines : forall d d',
  for_each (read_line float) d lines = Ok d' ->
  dict_keys d' =
  foldl (fun acc k => if bool_decide (k ∈ acc) then acc else acc ++ [k])
        (dict_keys d)
        (omap (fun line => if kept line then head (split_space line) else None)
              lines).
Proof.
  induction lines as [|line lines IH]; intros d d'; simpl.
  - by intros [= <-].
  - destruct (read_line float d line) as [d1|] eqn:Hline; [|done]. simpl.
    intros Hrest. rewrite (IH _ _ Hrest), (read_line_label _ _ _ Hline).
    by destruct (if kept line then head (split_space line) else None).
Qed.

(** X13: a library the reader returns always holds the label [a], so
    it is never empty, and it lists every label once, in the order in
    which the labels first occur on the kept lines of the text; its
    labels are exactly the labels of those lines. *)
Theorem read_pb_definitions_labels pb_angles_string pb_angles :
  read_pb_definitions float pb_angles_string = Ok pb_angles ->
  dict_keys pb_angles = first_occurrences (line_labels pb_angles_string) /\
  NoDup (dict_keys pb_angles) /\
  "a"%string ∈ dict_keys pb_angles /\
  (forall k, k ∈ dict_keys pb_angles <-> k ∈ line_labels pb_angles_string).
Proof.
  unfold read_pb_definitions.
  destruct (for_each _ _ _) as [d|] eqn:Hloop; [|done]. simpl.
  destruct (dict_get String.eqb "a"%string d) as [v|] eqn:Ha; [|done]. simpl.
  intros [= <-]. apply for_each_read_labels in Hloop.
  change (dict_keys d = first_occurrences (line_labels pb_angles_string)) in Hloop.
  destruct (first_occurrences_fold (line_labels pb_angles_string) [])
    as [Hnd Hel]; [constructor|].
  fold (first_occurrences (line_labels pb_angles_string)) in Hnd, Hel.
  rewrite Hloop. split; [done|]. split; [done|]. split.
  - rewrite <- Hloop. apply dict_get_Ok in Ha as (k' & Hin & ->%String.eqb_eq).
    apply list_elem_of_fmap. by exists ("a"%string, v).
  - intros k. rewrite Hel, elem_of_nil. tauto.
Qed.

End Loaded.

Lemma read_pb_definitions_labels_witness :
  let text := ("b 1" +:+ String newline ("a 2 3" +:+ String newline "b 4 5"))
  in
  dict_keys [("b"%string, [4; 5]); ("a"%string, [2; 3])] =
    first_occurrences (line_labels text) /\
  NoDup (dict_keys [("b"%string, [4; 5]); ("a"%string, [2; 3])]) /\
  "a"%string ∈ dict_keys [("b"%string, [4; 5]); ("a"%string, [2; 3])] /\
  (forall k, k ∈ dict_keys [("b"%string, [4; 5]); ("a"%string, [2; 3])] <->
             k ∈ line_labels text).
Proof.
  intros text. apply (read_pb_definitions_labels decimal_float text).
  by vm_compute.
Defined.

(** ** The reader: line by line *)

Lemma for_each_app {A S} (body : S -> A -> result S) l1 l2 : forall s,
  for_each body s (l1 ++ l2) = s' ← for_each body s l1; for_each body s' l2.
Proof.
  induction l1 as [|x l1 IH]; intros s; simpl; [done|].
  destruct (body s x) as [s1|]; simpl; [apply IH|done].
Qed.

Lemma split_newline_nonempty s : split_newline s <> [].
Proof.
  destruct s as [|c s]; simpl; [done|].
  destruct (Ascii.eqb c newline); [done|]. by destruct (split_newline s).
Qed.

Lemma split_newline_app a b :
  split_newline (a +:+ String newline b) = split_newline a ++ split_newline b.
Proof.
  induction a as [|c a IH]; [done|].
  change (split_newline (String c (a +:+ String newline b)) =
          split_newline (String c a) ++ split_newline b).
  simpl. rewrite IH. destruct (Ascii.eqb c newline); [done|].
  pose proof (split_newline_nonempty a). by destruct (split_newline a).
Qed.

Section Lines.
Variable float : string -> result Q.

Lemma read_line_skipped d line : kept line = false -> read_line float d line = Ok d.
Proof. intros H. unfold read_line. by rewrite H. Qed.

Lemma read_line_other d line d' k :
  read_line float d line = Ok d' ->
  (kept line = true -> head (split_space line) <> Some k) ->
  dict_get String.eqb k d' = dict_get String.eqb k d.
Proof.
  unfold read_line. destruct (kept line); [|by intros [= <-]].
  destruct (comprehension float _) as [array|]; [|done]. simpl.
  unfold list_item. destruct (split_space line) as [|label items]; [done|].
  simpl. intros [= <-] Hk.
  rewrite (dict_get_set String.eqb string_eqb_sym string_eqb_trans).
  destruct (String.eqb_spec label k) as [->|_]; [|done]. by destruct Hk.
Qed.

Lemma for_each_read_other lines : forall d d' k,
  for_each (read_line float) d lines = Ok d' ->
  Forall (fun line => kept line = true -> head (split_space line) <> Some k)
         lines ->
  dict_get String.eqb k d' = dict_get String.eqb k d.
Proof.
  induction lines as [|line lines IH]; intros d d' k; simpl.
  - by intros [= <-].
  - destruct (read_line float d line) as [d1|] eqn:Hline; [|done]. simpl.
    intros Hrest [Hk Hall]%Forall_cons.
    rewrite (IH _ _ _ Hrest Hall). by apply (read_line_other _ _ _ _ Hline).
Qed.

(** X14: when a label has several kept lines, the library holds under
    it the array of the last of them: for the last kept line that
    starts with a label, the array read from the rest of that line is
    what the returned library gives for the label. *)
Theorem read_pb_definitions_last_line pb_angles_string pb_angles l1 line l2 k :
  read_pb_definitions float pb_angles_string = Ok pb_angles ->
  split_newline pb_angles_string = l1 ++ line :: l2 ->
  kept line = true -> head (split_space line) = Some k ->
  Forall (fun line' => kept line' = true -> head (split_space line') <> Some k)
         l2 ->
  exists array,
    comprehension float (drop 1 (split_space line)) = Ok array /\
    dict_get String.eqb k pb_angles = Ok array.
Proof.
  unfold read_pb_definitions. intros Hread Hsplit Hkept Hhead Hlater.
  rewrite Hsplit, for_each_app in Hread.
  destruct (for_each (read_line float) [] l1) as [d1|]; [|done].
  simpl in Hread.
  destruct (read_line float d1 line) as [d2|] eqn:Hline; [|done].
  simpl in Hread.
  destruct (for_each (read_line float) d2 l2) as [d3|] eqn:Hrest; [|done].
  simpl in Hread. destruct (dict_get String.eqb "a"%string d3); [|done].
  injection Hread as <-.
  rewrite (for_each_read_other _ _ _ _ Hrest Hlater).
  unfold read_line in Hline. rewrite Hkept in Hline. cbv zeta in Hline.
  destruct (comprehension float _) as [array|]; [|done]. simpl in Hline.
  exists array. split; [done|].
  unfold list_item in Hline.
  destruct (split_space line) as [|label items]; [done|].
  simpl in *. injection Hhead as ->. injection Hline as <-.
  rewrite (dict_get_set String.eqb string_eqb_sym string_eqb_trans).
  by rewrite String.eqb_refl.
Qed.

(** X15: a line that is empty or holds a comment mark changes nothing:
    the reader gives the same result, library or exception, with and
    without such a line between two parts of the text. *)
Theorem read_pb_definitions_skips_line before skipped after :
  contains newline skipped = false -> kept skipped = false ->
  read_pb_definitions float
    (before +:+ String newline (skipped +:+ String newline after)) =
  read_pb_definitions float (before +:+ String newline after).
Proof.
  intros Hnl Hskip. unfold read_pb_definitions.
  rewrite !split_newline_app, (split_newline_plain skipped Hnl).
  rewrite !for_each_app.
  destruct (for_each (read_line float) [] (split_newline before)) as [d|];
    [|done].
  simpl. by rewrite (read_line_skipped d skipped Hskip).
Qed.

Lemma all_space_split s : all_space s = true -> split_space s = [].
Proof.
  induction s as [|c s IH]; [done|]. simpl.
  intros [Hc Hs]%andb_prop. by rewrite Hc, IH.
Qed.

Lemma all_space_no_hash s : all_space s = true -> contains hash s = false.
Proof.
  induction s as [|c s IH]; [done|]. simpl.
  intros [Hc Hs]%andb_prop. rewrite (IH Hs), orb_false_r.
  apply Ascii.eqb_neq. by intros ->.
Qed.

Lemma all_space_kept s : s <> ""%string -> all_space s = true -> kept s = true.
Proof.
  intros Hne Hs. unfold kept. rewrite (all_space_no_hash s Hs).
  by destruct s.
Qed.

(** X16: a line that is not empty but holds white space only is not
    skipped: coming after well-formed lines, it makes the reader raise
    [IndexError], whatever follows it. *)
Theorem read_pb_definitions_blank_line pb_angles_string l1 blank l2 :
  split_newline pb_angles_string = l1 ++ blank :: l2 ->
  Forall (well_formed_line float) l1 ->
  blank <> ""%string -> all_space blank = true ->
  read_pb_definitions float pb_angles_string = Raise IndexError.
Proof.
  intros Hsplit Hwf Hne Hblank. unfold read_pb_definitions.
  rewrite Hsplit, for_each_app.
  destruct (for_each_read_total float l1 [] Hwf) as [d1 ->]. simpl.
  unfold read_line.
  by rewrite (all_space_kept blank Hne Hblank), (all_space_split blank Hblank).
Qed.

Lemma comprehension_first_raise {A B} (f : A -> result B) good x rest e :
  Forall (fun y => exists b, f y = Ok b) good -> f x = Raise e ->
  comprehension f (good ++ x :: rest) = Raise e.
Proof.
  induction 1 as [|y good [b Hy] _ IH]; intros Hx; simpl.
  - by rewrite Hx.
  - by rewrite Hy, (IH Hx).
Qed.

(** X17: the first item that [float] refuses decides the load: on a
    kept line after well-formed lines, with the items before it
    accepted, the exception of [float] for this item is the exception
    of the reader. *)
Theorem read_pb_definitions_bad_number pb_angles_string l1 line l2
    good item rest e :
  split_newline pb_angles_string = l1 ++ line :: l2 ->
  Forall (well_formed_line float) l1 ->
  kept line = true ->
  drop 1 (split_space line) = good ++ item :: rest ->
  Forall (fun t => exists x, float t = Ok x) good ->
  float item = Raise e ->
  read_pb_definitions float pb_angles_string = Raise e.
Proof.
  intros Hsplit Hwf Hkept Hitems Hgood Hitem. unfold read_pb_definitions.
  rewrite Hsplit, for_each_app.
  destruct (for_each_read_total float l1 [] Hwf) as [d1 ->]. simpl.
  unfold read_line.
  by rewrite Hkept, Hitems, (comprehension_first_raise _ _ _ _ _ Hgood Hitem).
Qed.

End Lines.

Lemma read_pb_definitions_last_line_witness :
  exists array,
    comprehension decimal_float (drop 1 (split_space "a 3 4")) = Ok array /\
    dict_get String.eqb "a"%string [("a"%string, [3; 4]); ("b"%string, [2])] =
      Ok array.
Proof.
  apply (read_pb_definitions_last_line decimal_float
           ("a 1" +:+ String newline ("b 2" +:+ String newline "a 3 4"))
           [("a"%string, [3; 4]); ("b"%string, [2])]
           ["a 1"; "b 2"]%string "a 3 4" [] "a"); by vm_compute.
Defined.

Lemma read_pb_definitions_skips_line_witness :
  read_pb_definitions decimal_float
    ("a 1" +:+ String newline ("b 9 # old" +:+ String newline "b 2")) =
  read_pb_definitions decimal_float ("a 1" +:+ String newline "b 2").
Proof.
  by apply (read_pb_definitions_skips_line decimal_float "a 1" "b 9 # old" "b 2").
Defined.

Lemma well_formed_a1 : Forall (well_formed_line decimal_float) ["a 1"%string].
Proof.
  apply Forall_cons; split; [|by apply Forall_nil].
  intros _. split; [by vm_compute|].
  change (drop 1 _) with ["1"%string].
  apply Forall_cons; split; [eexists; by vm_compute|by apply Forall_nil].
Qed.

Lemma read_pb_definitions_blank_line_witness :
  read_pb_definitions decimal_float
    ("a 1" +:+ String newline ("  " +:+ String newline "b 2")) =
  Raise IndexError.
Proof.
  apply (read_pb_definitions_blank_line decimal_float _
           ["a 1"%string] "  " ["b 2"%string]).
  - by vm_compute.
  - apply well_formed_a1.
  - done.
  - by vm_compute.
Defined.

Lemma read_pb_definitions_bad_number_witness :
  read_pb_definitions decimal_float
    ("a 1" +:+ String newline "b 2 x 3") = Raise ValueError.
Proof.
  apply (read_pb_definitions_bad_number decimal_float _
           ["a 1"%string] "b 2 x 3" [] ["2"%string] "x" ["3"%string]).
  - by vm_compute.
  - apply well_formed_a1.
  - by vm_compute.
  - by vm_compute.
  - apply Forall_cons; split; [eexists; by vm_compute|by apply Forall_nil].
  - by vm_compute.
Defined.

(** ** From the reader to the assignment *)

Lemma read_pb_definitions_dict float pb_angles_string pb_angles :
  read_pb_definitions float pb_angles_string = Ok pb_angles ->
  NoDup (dict_keys pb_angles) /\ pb_angles <> [].
Proof.
  unfold read_pb_definitions.
  destruct (for_each _ _ _) as [d|] eqn:Hloop; [|done]. simpl.
  destruct (dict_get String.eqb "a"%string d) as [v|] eqn:Ha; [|done]. simpl.
  intros [= <-]. split; [|by destruct d].
  rewrite (for_each_read_labels float _ _ _ Hloop).
  apply first_occurrences_fold. constructor.
Qed.

(** X18: a library that the reader returned, all of whose blocks have
    eight angles and a label of one character, serves every torsion
    map: the run returns a sequence with one character per residue.
    (That the library is a dict and is not empty comes from the
    reader.) *)
Theorem read_then_assign float pb_angles_string pb_ref dihedrals :
  read_pb_definitions float pb_angles_string = Ok pb_ref ->
  Forall (fun e => length e.2 = 8%nat /\ String.length e.1 = 1%nat) pb_ref ->
  exists pb_seq,
    PB_assign pb_ref dihedrals = Ok pb_seq /\
    String.length pb_seq = size dihedrals.
Proof.
  intros [Hd Hne]%read_pb_definitions_dict Hall.
  assert (Hok : library_ok pb_ref).
  { split; [done|done| |]; eapply Forall_impl; try exact Hall; by intros e []. }
  destruct (PB_assign_labels pb_ref dihedrals Hok) as (labels & Hrun & H2 & Hone).
  exists (join_labels labels). split; [done|].
  rewrite (join_labels_length _ Hone), <- sorted_length.
  symmetry. by eapply Forall2_length.
Qed.

Lemma read_then_assign_witness :
  exists pb_seq,
    PB_assign library_ab (five_residues 0 0) = Ok pb_seq /\
    String.length pb_seq = size (five_residues 0 0).
Proof.
  apply (read_then_assign decimal_float
           ("a 0 0 0 0 0 0 0 0" +:+ String newline "b 10 10 10 10 10 10 10 10")).
  - by vm_compute.
  - by repeat constructor.
Defined.

(** ** The files *)

Lemma lookup_append_text name text (files : gmap string string) :
  append_text name text files !! name =
  Some (default ""%string (files !! name) +:+ text).
Proof. unfold append_text. apply lookup_insert_eq. Qed.

Lemma lookup_append_text_ne name other text (files : gmap string string) :
  other <> name -> append_text name text files !! other = files !! other.
Proof. intros H. unfold append_text. by apply lookup_insert_ne. Qed.

(** Texts written one after the other into a file. *)
Lemma append_text_fold {A} (f : A -> string) name (l : list A) :
  forall files : gmap string string,
  let files' := foldl (fun fs x => append_text name (f x) fs) files l in
  default ""%string (files' !! name) =
    default ""%string (files !! name) +:+ join_labels (f <$> l) /\
  (l <> [] -> is_Some (files' !! name)) /\
  (forall other, other <> name -> files' !! other = files !! other).
Proof.
  induction l as [|x l IH]; intros files; simpl.
  - split; [by rewrite append_empty_r|]. split; [done|done].
  - destruct (IH (append_text name (f x) files)) as (Hc & Hs & Ho).
    split; [|split].
    + rewrite Hc, lookup_append_text. simpl. by rewrite append_assoc.
    + intros _. destruct l as [|y l]; [|by apply Hs].
      simpl. rewrite lookup_append_text. by eexists.
    + intros other Hne. rewrite (Ho other Hne).
      by apply lookup_append_text_ne.
Qed.

Lemma split_newline_lines (lines : list string) :
  Forall (fun s => contains newline s = false) lines ->
  split_newline (join_labels ((fun s => s +:+ String newline "") <$> lines)) =
  lines ++ [""%string].
Proof.
  induction 1 as [|s lines Hs _ IH]; [done|].
  change (split_newline
            ((s +:+ String newline "") +:+
             join_labels ((fun s => s +:+ String newline "") <$> lines)) =
          s :: (lines ++ [""%string])).
  rewrite append_assoc.
  change (String newline "" +:+ ?r) with (String newline r).
  by rewrite (split_newline_append _ _ Hs), IH.
Qed.

(** X19: sequences written by [write_flat] into a file that is absent
    or empty come back line by line: split at the line feeds, the file
    holds the sequences in the order of the calls, then one empty
    piece; no other file is touched. *)
Theorem write_flat_lines name seqs (files : gmap string string) :
  default ""%string (files !! name) = ""%string ->
  Forall (fun s => contains newline s = false) seqs ->
  let files' := foldl (fun fs seq => write_flat name seq fs) files seqs in
  split_newline (default ""%string (files' !! name)) = seqs ++ [""%string] /\
  (forall other, other <> name -> files' !! other = files !! other).
Proof.
  intros Hempty Hseqs files'.
  destruct (append_text_fold (fun s => s +:+ String newline "") name seqs files)
    as (Hc & _ & Ho).
  split; [|exact Ho].
  unfold files', write_flat. rewrite Hc, Hempty.
  change (""%string +:+ ?r) with r. by apply split_newline_lines.
Qed.

Lemma write_flat_lines_witness :
  let files' :=
    foldl (fun fs seq => write_flat "out.PB.flat" seq fs) ∅
          ["ZZaZZ"; "ZZbbZZ"]%string in
  split_newline (default ""%string (files' !! "out.PB.flat"%string)) =
    ["ZZaZZ"; "ZZbbZZ"; ""]%string /\
  (forall other, other <> "out.PB.flat"%string ->
                 files' !! other = (∅ : gmap string string) !! other).
Proof.
  apply (write_flat_lines "out.PB.flat" ["ZZaZZ"; "ZZbbZZ"]%string ∅).
  - done.
  - by repeat constructor.
Defined.

(** ** The dump of the torsions *)

Lemma pretty_N_char_newline n : Ascii.eqb (pretty_N_char n) newline = false.
Proof. unfold pretty_N_char. by repeat case_match. Qed.

Lemma pretty_N_go_newline x : forall s,
  contains newline (pretty_N_go x s) = contains newline s.
Proof.
  induction (N.lt_wf_0 x) as [x _ IH]; intros s.
  destruct (decide (x = 0)%N) as [->|Hx]; [by rewrite pretty_N_go_0|].
  rewrite pretty_N_go_step by lia. rewrite IH by (apply N.div_lt; lia).
  simpl. by rewrite pretty_N_char_newline.
Qed.

Lemma pretty_N_newline (n : N) : contains newline (pretty n) = false.
Proof.
  unfold pretty, pretty_N. case_decide; [done|]. by rewrite pretty_N_go_newline.
Qed.

Lemma pretty_Z_newline (z : Z) : contains newline (pretty z) = false.
Proof.
  destruct z as [|q|q]; [done| |].
  - apply (pretty_N_newline (Npos q)).
  - change (pretty (Zneg q)) with ("-" +:+ pretty (Npos q)).
    by rewrite contains_append, pretty_N_newline.
Qed.

Lemma format_6d_newline res : contains newline (format_6d res) = false.
Proof.
  unfold format_6d. rewrite contains_append, pretty_Z_newline, orb_false_r.
  induction (6 - String.length (pretty res))%nat as [|n IH]; [done|].
  simpl. exact IH.
Qed.

Section Dump.
Variable format_8_2f : Q -> string.
Hypothesis format_8_2f_newline :
  forall x, contains newline (format_8_2f x) = false.

Lemma angle_str_newline torsions res field :
  contains newline (angle_str format_8_2f torsions res field) = false.
Proof using format_8_2f_newline.
  unfold angle_str. destruct (torsions !! res) as [t|]; [|done].
  destruct (field t); [apply format_8_2f_newline|done].
Qed.

(** X20: the dump of [write_phipsi] into a file that is absent or
    empty has one line per residue of the torsion map, in ascending
    order of the residues, also for the residues that get no block:
    the comment, the number of the residue in a field of six, and the
    two torsions, each formatted or replaced by [None]; no other file
    is touched. *)
Theorem write_phipsi_lines name torsions com (files : gmap string string) :
  default ""%string (files !! name) = ""%string ->
  contains newline com = false ->
  let files' := write_phipsi format_8_2f name torsions com files in
  split_newline (default ""%string (files' !! name)) =
    ((fun res =>
        com +:+ " " +:+ format_6d res +:+ " "
            +:+ angle_str format_8_2f torsions res phi +:+ " "
            +:+ angle_str format_8_2f torsions res psi +:+ " ")
       <$> sorted torsions) ++ [""%string] /\
  length (sorted torsions) = size torsions /\
  (forall other, other <> name -> files' !! other = files !! other).
Proof using format_8_2f_newline.
  intros Hempty Hcom files'.
  destruct (append_text_fold (phipsi_line format_8_2f torsions com) name
              (sorted torsions) files) as (Hc & _ & Ho).
  split; [|split; [apply sorted_length|exact Ho]].
  unfold files', write_phipsi. rewrite Hc, Hempty.
  change (""%string +:+ ?r) with r.
  rewrite <- split_newline_lines.
  - f_equal. f_equal. rewrite <- list_fmap_compose.
    apply list_fmap_ext. intros _ res _. unfold phipsi_line. simpl.
    by rewrite !append_assoc.
  - apply Forall_fmap, Forall_forall. intros res _. simpl.
    rewrite !contains_append, Hcom, format_6d_newline, !angle_str_newline.
    done.
Qed.

End Dump.

Lemma write_phipsi_lines_witness :
  let torsions : gmap Z torsion :=
    {[ 7%Z := Torsion None (Some 1); (-12)%Z := Torsion (Some 2) None ]} in
  let files' := write_phipsi (fun _ => "    0.00"%string) "o.PB.phipsi"
                  torsions "1abc" ∅ in
  split_newline (default ""%string (files' !! "o.PB.phipsi"%string)) =
    ((fun res =>
        "1abc" +:+ " " +:+ format_6d res +:+ " "
          +:+ angle_str (fun _ => "    0.00"%string) torsions res phi +:+ " "
          +:+ angle_str (fun _ => "    0.00"%string) torsions res psi +:+ " ")
       <$> sorted torsions) ++ [""%string] /\
  length (sorted torsions) = size torsions /\
  (forall other, other <> "o.PB.phipsi"%string ->
                 files' !! other = (∅ : gmap string string) !! other).
Proof.
  intros torsions.
  apply (write_phipsi_lines (fun _ => "    0.00"%string)); done.
Defined.

Example write_phipsi_text :
  write_phipsi (fun _ => "    0.00"%string) "o.PB.phipsi"
    {[ 7%Z := Torsion None (Some 1); (-12)%Z := Torsion (Some 2) None ]}
    "1abc" ∅ !! "o.PB.phipsi"%string =
  Some ("1abc    -12     0.00     None " +:+ String newline
        ("1abc      7     None     0.00 " +:+ String newline ""))%string.
Proof. by vm_compute. Qed.

(** ** The assignment with its files *)

Lemma output_names_differ opts :
  fasta_name opts <> flat_name opts /\ phipsi_name opts <> flat_name opts /\
  phipsi_name opts <> fasta_name opts.
Proof.
  unfold fasta_name, flat_name, phipsi_name.
  repeat split; intros H; by apply (inj (String.append _)) in H.
Qed.

Section Run.
Variable format_8_2f : Q -> string.
Variable write_fasta :
  string -> string -> string -> gmap string string -> gmap string string.
Variable opts : options.t.

Lemma write_phipsi_other name torsions com (files : gmap string string) other :
  other <> name ->
  write_phipsi format_8_2f name torsions com files !! other = files !! other.
Proof.
  intros Hne. unfold write_phipsi.
  by apply (append_text_fold (phipsi_line format_8_2f torsions com) name
              (sorted torsions) files).
Qed.

(** X21: when the library holds a block of neither eight angles nor
    one and the structure has a residue with a full window, the
    assignment ends in [ValueError] after the dump of the torsions and
    before the writers of the sequence: the fasta file and the flat
    file are as they were, while the dump, when it was asked for, has
    been written in full. *)
Theorem PB_assign_files_failure pb_ref dihedrals comment files :
  NoDup (dict_keys pb_ref) ->
  (exists e, e ∈ pb_ref /\ length e.2 <> 8%nat /\ length e.2 <> 1%nat) ->
  (exists i w, assembled dihedrals i w) ->
  let r := PB_assign_files format_8_2f write_fasta opts pb_ref dihedrals
             comment files in
  r.2 = Raise ValueError /\
  r.1 !! fasta_name opts = files !! fasta_name opts /\
  r.1 !! flat_name opts = files !! flat_name opts /\
  r.1 = if options.phipsi opts
        then write_phipsi format_8_2f (phipsi_name opts) dihedrals comment files
        else files.
Proof.
  intros Hd Hbad Hw r. unfold r, PB_assign_files.
  rewrite (PB_assign_shape_error pb_ref dihedrals Hd Hbad Hw). simpl.
  destruct (output_names_differ opts) as (_ & H1 & H2).
  split; [done|]. destruct (options.phipsi opts); [|done].
  rewrite !write_phipsi_other by done. done.
Qed.

Hypothesis write_fasta_other :
  forall name seq comment (files : gmap string string) other,
    other <> name -> write_fasta name seq comment files !! other = files !! other.

Lemma PB_assign_files_flat pb_ref dihedrals comment files pb_seq :
  PB_assign pb_ref dihedrals = Ok pb_seq ->
  let r := PB_assign_files format_8_2f write_fasta opts pb_ref dihedrals
             comment files in
  r.2 = Ok tt /\
  r.1 !! flat_name opts =
    if options.flat opts
    then Some (default ""%string (files !! flat_name opts)
               +:+ pb_seq +:+ String newline "")
    else files !! flat_name opts.
Proof using write_fasta_other.
  intros Hrun r. unfold r, PB_assign_files. rewrite Hrun. simpl.
  destruct (output_names_differ opts) as (H0 & H1 & _).
  split; [done|].
  assert (Hflat : forall fs : gmap string string,
    (if options.phipsi opts
     then write_phipsi format_8_2f (phipsi_name opts) dihedrals comment fs
     else fs) !! flat_name opts = fs !! flat_name opts).
  { intros fs. destruct (options.phipsi opts); [|done].
    apply write_phipsi_other. by intros Heq; apply H1. }
  destruct (options.flat opts).
  - unfold write_flat. rewrite lookup_append_text.
    rewrite write_fasta_other by (by intros Heq; apply H0).
    by rewrite Hflat.
  - rewrite write_fasta_other by (by intros Heq; apply H0). apply Hflat.
Qed.

(** X22: in a run over several chains in which every assignment
    returns, with the option [--flat] and a flat file that is absent or
    empty at the start, the flat file ends up holding the sequences of
    the chains, one per line, in the order of the chains (given that
    [write_fasta] writes to its own file only). *)
Theorem assign_all_flat pb_ref chains seqs (files : gmap string string) :
  options.flat opts = true ->
  Forall2 (fun chain pb_seq => PB_assign pb_ref chain.2 = Ok pb_seq) chains seqs ->
  Forall (fun s => contains newline s = false) seqs ->
  default ""%string (files !! flat_name opts) = ""%string ->
  let r := assign_all format_8_2f write_fasta opts pb_ref chains files in
  r.2 = Ok tt /\
  split_newline (default ""%string (r.1 !! flat_name opts)) = seqs ++ [""%string].
Proof using write_fasta_other.
  intros Hflat Hruns Hnl Hempty r.
  assert (Haux : forall files0 : gmap string string,
    let r0 := assign_all format_8_2f write_fasta opts pb_ref chains files0 in
    r0.2 = Ok tt /\
    default ""%string (r0.1 !! flat_name opts) =
      default ""%string (files0 !! flat_name opts)
      +:+ join_labels ((fun s => s +:+ String newline "") <$> seqs)).
  { clear Hnl Hempty r. induction Hruns as [|[comment d] pb_seq chains seqs Hrun _ IH];
      intros files0; simpl.
    - split; [done|]. by rewrite append_empty_r.
    - simpl in Hrun.
      destruct (PB_assign_files_flat pb_ref d comment files0 pb_seq Hrun)
        as [Hr Hf].
      destruct (PB_assign_files _ _ _ _ _ _ _) as [files1 r1].
      simpl in Hr, Hf. subst r1. rewrite Hflat in Hf.
      destruct (IH files1) as [IH1 IH2]. split; [done|].
      rewrite IH2, Hf. simpl. by rewrite !append_assoc. }
  destruct (Haux files) as [H1 H2]. split; [done|].
  unfold r. rewrite H2, Hempty.
  change (""%string +:+ ?s) with s. by apply split_newline_lines.
Qed.

End Run.

Lemma PB_assign_files_failure_witness :
  let opts := options.Make None "out" (Some "t.xtc"%string) (Some "c.gro"%string)
                           true true in
  let write_fasta := fun (name seq comment : string) (fs : gmap string string)
                     => append_text name seq fs in
  let r := PB_assign_files (fun _ => "    0.00"%string) write_fasta opts
             [("a"%string, [0; 0; 0])] (five_residues 0 0) "frame 1" ∅ in
  r.2 = Raise ValueError /\
  r.1 !! fasta_name opts = (∅ : gmap string string) !! fasta_name opts /\
  r.1 !! flat_name opts = (∅ : gmap string string) !! flat_name opts /\
  r.1 = if options.phipsi opts
        then write_phipsi (fun _ => "    0.00"%string) (phipsi_name opts)
               (five_residues 0 0) "frame 1" ∅
        else ∅.
Proof.
  intros opts write_fasta.
  apply (PB_assign_files_failure (fun _ => "    0.00"%string) write_fasta opts
           [("a"%string, [0; 0; 0])] (five_residues 0 0) "frame 1" ∅).
  - by apply (bool_decide_unpack (NoDup _)).
  - exists ("a"%string, [0; 0; 0]). split; [by left|]. split; by vm_compute.
  - exists 3%Z, [0; 0; 0; 0; 0; 0; 0; 0].
    by apply (window_assembled (five_residues 0 0) 3).
Defined.

Lemma assign_all_flat_witness :
  let opts := options.Make (Some ["1abc.pdb"%string]) "out" None None false true in
  let write_fasta := fun (name seq comment : string) (fs : gmap string string)
                     => append_text name seq fs in
  let r := assign_all (fun _ => "    0.00"%string) write_fasta opts library_ab
             [("1abc.pdb | chain A"%string, five_residues 0 0);
              ("1abc.pdb | chain B"%string, delete 3%Z (five_residues 0 0))] ∅ in
  r.2 = Ok tt /\
  split_newline (default ""%string (r.1 !! flat_name opts)) =
    ["ZZaZZ"; "ZZZZ"]%string ++ [""%string].
Proof.
  intros opts write_fasta.
  apply (assign_all_flat (fun _ => "    0.00"%string) write_fasta opts).
  - intros name seq comment files other Hne.
    by apply lookup_append_text_ne.
  - done.
  - repeat constructor; by vm_compute.
  - by repeat constructor.
  - done.
Defined.

(** ** The checks of the script *)

Section Startup.
Variables isfile isdir : string -> bool.
Variable glob_in : string -> string -> list string.
Variable extensions : list string.

(** X23: the two checks in sequence never hand [None] to
    [os.path.isfile]; and when they pass without [-p], no structure
    file is listed, and [-x] and [-g] are both given, not empty, and
    name existing files. *)
Theorem startup_trajectory opts :
  startup isfile isdir glob_in extensions opts <> inr TypeError /\
  (not_list (options.p opts) = true ->
   forall r, startup isfile isdir glob_in extensions opts = inl r ->
     r = ([], []) /\
     exists x g, options.x opts = Some x /\ options.g opts = Some g /\
                 x <> ""%string /\ g <> ""%string /\
                 isfile x = true /\ isfile g = true).
Proof.
  unfold startup, check_options, check_files.
  destruct (not_list (options.p opts)) eqn:Hp; simpl.
  - destruct (options.x opts) as [[|c x]|]; simpl; [by split..| |by split].
    destruct (options.g opts) as [[|c' g]|]; simpl;
      [destruct (isfile (String c x)); by split| |destruct (isfile (String c x)); by split].
    destruct (isfile (String c x)) eqn:Hx; simpl; [|by split].
    destruct (isfile (String c' g)) eqn:Hg; simpl; [|by split].
    split; [done|]. intros _ r [= <-]. split; [done|].
    by exists (String c x), (String c' g).
  - split; [|done].
    destruct (foldl _ _ _) as [[|n lst] printed]; done.
Qed.

Lemma glob_fold name exts : forall lst n,
  n ∈ foldl (fun lst extension => lst ++ glob_in name extension) lst exts <->
  n ∈ lst \/ exists ext, ext ∈ exts /\ n ∈ glob_in name ext.
Proof.
  induction exts as [|ext exts IH]; intros lst n; simpl.
  - split; [by left|]. intros [?|(? & ?%elem_of_nil & _)]; done.
  - rewrite IH, elem_of_app. split.
    + intros [[?|?]|(ext' & ? & ?)]; [by left| |].
      * right. exists ext. split; [by left|done].
      * right. exists ext'. split; [by right|done].
    + intros [?|(ext' & [->|?]%elem_of_cons & ?)].
      * by left; left.
      * by left; right.
      * right. by exists ext'.
Qed.

Lemma check_name_fold names : forall lst printed lst' printed',
  foldl (check_name isfile isdir glob_in extensions) (lst, printed) names =
    (lst', printed') ->
  (forall n, n ∈ lst' <->
     n ∈ lst \/
     exists arg, arg ∈ names /\
       ((isfile arg = true /\ n = arg) \/
        (isfile arg = false /\ isdir arg = true /\
         exists ext, ext ∈ extensions /\ n ∈ glob_in arg ext))) /\
  (forall arg, arg ∈ names -> isfile arg = false -> isdir arg = false ->
     arg +:+ ": not a valid file or directory" ∈ printed') /\
  (forall msg, msg ∈ printed -> msg ∈ printed').
Proof.
  induction names as [|arg names IH]; intros lst printed lst' printed'; simpl.
  - intros [= <- <-]. split; [|split; [|done]].
    + intros n. split; [by left|]. intros [?|(? & ?%elem_of_nil & _)]; done.
    + by intros ? ?%elem_of_nil.
  - destruct (isfile arg) eqn:Hf; [|destruct (isdir arg) eqn:Hd]; simpl.
    + intros (Hl & Hp & Hk)%IH. split; [|split; [|done]].
      * intros n. rewrite Hl, elem_of_app, list_elem_of_singleton. split.
        -- intros [[?| ->]|(arg' & ? & ?)]; [by left| |].
           ++ right. exists arg. split; [by left|]. by left.
           ++ right. exists arg'. split; [by right|done].
        -- intros [?|(arg' & [->|?]%elem_of_cons & Hcase)]; [by left; left| |].
           ++ destruct Hcase as [[_ ->]|[? _]]; [by left; right|congruence].
           ++ right. by exists arg'.
      * intros arg' [->|?]%elem_of_cons ? ?; [congruence|]. by apply Hp.
    + intros (Hl & Hp & Hk)%IH. split; [|split; [|done]].
      * intros n. rewrite Hl, glob_fold. split.
        -- intros [[?|Hg]|(arg' & ? & ?)]; [by left| |].
           ++ right. exists arg. split; [by left|]. by right.
           ++ right. exists arg'. split; [by right|done].
        -- intros [?|(arg' & [->|?]%elem_of_cons & Hcase)]; [by left; left| |].
           ++ destruct Hcase as [[? _]|(_ & _ & Hg)]; [congruence|].
              by left; right.
           ++ right. by exists arg'.
      * intros arg' [->|?]%elem_of_cons ? ?; [congruence|]. by apply Hp.
    + intros (Hl & Hp & Hk)%IH. split; [|split].
      * intros n. rewrite Hl. split.
        -- intros [?|(arg' & ? & ?)]; [by left|].
           right. exists arg'. split; [by right|done].
        -- intros [?|(arg' & [->|?]%elem_of_cons & Hcase)]; [by left| |].
           ++ destruct Hcase as [[? _]|(_ & ? & _)]; congruence.
           ++ right. by exists arg'.
      * intros arg' [->|?]%elem_of_cons ? ?; [|by apply Hp].
        apply Hk, elem_of_app. right. by left.
      * intros msg Hmsg. apply Hk, elem_of_app. by left.
Qed.

(** X24: with [-p], the structures to read are exactly the arguments
    that are files and, for the arguments that are directories and
    not files, what [glob] finds there for one of the extensions; an
    argument that is neither is reported and the check goes on; the
    script stops with "Nothing to do" exactly when this leaves no
    structure at all. *)
Theorem check_files_names opts names :
  options.p opts = Some names -> names <> [] ->
  match check_files isfile isdir glob_in extensions opts with
  | inl (pdb_name_lst, printed) =>
      pdb_name_lst <> [] /\
      (forall n, n ∈ pdb_name_lst <->
         exists arg, arg ∈ names /\
           ((isfile arg = true /\ n = arg) \/
            (isfile arg = false /\ isdir arg = true /\
             exists ext, ext ∈ extensions /\ n ∈ glob_in arg ext))) /\
      (forall arg, arg ∈ names -> isfile arg = false -> isdir arg = false ->
         arg +:+ ": not a valid file or directory" ∈ printed)
  | inr s =>
      s = SysExit "Nothing to do. Bye." /\
      forall arg, arg ∈ names ->
        isfile arg = false /\
        (isdir arg = true ->
         forall ext, ext ∈ extensions -> glob_in arg ext = [])
  end.
Proof.
  intros Hp Hne. unfold check_files. rewrite Hp.
  destruct names as [|a names']; [done|]. cbn [not_list negb default].
  set (names := a :: names') in *.
  destruct (foldl _ _ names) as [lst printed] eqn:Hfold.
  apply check_name_fold in Hfold as (Hl & Hpr & _).
  destruct lst as [|n0 lst].
  - split; [done|]. intros arg Harg.
    destruct (isfile arg) eqn:Hf.
    { exfalso. apply (elem_of_nil arg), Hl. right. exists arg.
      split; [done|]. by left. }
    split; [done|]. intros Hd ext Hext.
    destruct (glob_in arg ext) as [|n l] eqn:Hg; [done|]. exfalso.
    apply (elem_of_nil n), Hl. right. exists arg. split; [done|]. right.
    split; [done|]. split; [done|]. exists ext. split; [done|].
    rewrite Hg. by left.
  - split; [done|]. split.
    + intros n. rewrite Hl. split.
      * intros [?%elem_of_nil|?]; done.
      * intros ?. by right.
    + intros arg Harg Hf Hd. apply elem_of_app. left. by apply Hpr.
Qed.

End Startup.

Lemma startup_trajectory_witness :
  let opts := options.Make None "out" (Some "t.xtc"%string) (Some "c.gro"%string)
                           false false in
  (@nil string, @nil string) = ([], []) /\
  exists x g, options.x opts = Some x /\ options.g opts = Some g /\
              x <> ""%string /\ g <> ""%string /\
              (fun _ : string => true) x = true /\
              (fun _ : string => true) g = true.
Proof.
  intros opts.
  by apply (proj2 (startup_trajectory (fun _ => true) (fun _ => false)
                     (fun _ _ => []) [] opts)).
Defined.

Lemma check_files_names_witness :
  let isfile := String.eqb "a.pdb" in
  let isdir := String.eqb "dir" in
  let glob_in := fun (d ext : string) =>
                   if String.eqb ext ".pdb" then [d +:+ "/x.pdb"] else [] in
  let names := ["a.pdb"; "nope"; "dir"]%string in
  let opts := options.Make (Some names) "out" None None false false in
  match check_files isfile isdir glob_in [".pdb"; ".cif"]%string opts with
  | inl (pdb_name_lst, printed) =>
      pdb_name_lst <> [] /\
      (forall n, n ∈ pdb_name_lst <->
         exists arg, arg ∈ names /\
           ((isfile arg = true /\ n = arg) \/
            (isfile arg = false /\ isdir arg = true /\
             exists ext, ext ∈ [".pdb"; ".cif"]%string /\ n ∈ glob_in arg ext))) /\
      (forall arg, arg ∈ names -> isfile arg = false -> isdir arg = false ->
         arg +:+ ": not a valid file or directory" ∈ printed)
  | inr s =>
      s = SysExit "Nothing to do. Bye." /\
      forall arg, arg ∈ names ->
        isfile arg = false /\
        (isdir arg = true ->
         forall ext, ext ∈ [".pdb"; ".cif"]%string -> glob_in arg ext = [])
  end.
Proof.
  intros isfile isdir glob_in names opts.
  by apply (check_files_names isfile isdir glob_in [".pdb"; ".cif"]%string
              opts names).
Defined.

Example check_files_run :
  check_files (String.eqb "a.pdb") (String.eqb "dir")
    (fun d ext => if String.eqb ext ".pdb" then [d +:+ "/x.pdb"] else [])
    [".pdb"; ".cif"]%string
    (options.Make (Some ["a.pdb"; "nope"; "dir"]%string) "out" None None
                  false false) =
  inl (["a.pdb"; "dir/x.pdb"]%string,
       ["nope: not a valid file or directory"; "2 PDB file(s) to process"]%string).
Proof. by vm_compute. Qed.
